(** * shahab-unlocked-streams: the access gate and the playback controller

    A shallow embedding of the two stateful components of the portal,
    [AccessControl] (src/components/AccessControl.tsx and its second
    variant, src/unnamed/part_002) and [VideoPlayer]
    (src/components/VideoPlayer.tsx, identical in the modelled parts to
    src/unnamed/part_001), together with the few ECMAScript and browser
    primitives they call: [parseInt], [Number.prototype.toString],
    [parseFloat], [btoa], [URLSearchParams.get], [history.replaceState],
    [localStorage]. *)

From Stdlib Require Import ZArith QArith Qround Qminmax Qpower Qabs.
From Stdlib Require Import String Ascii List Bool Lia Lqa.
From Stdlib Require Import Sorted.
From stdpp Require Import base option list gmap strings.
Import ListNotations.

Set Warnings "-register-all".

Local Open Scope string_scope.
Local Open Scope Z_scope.

(** ** ECMAScript primitives *)

Module JS.

(** A JavaScript number as the components use it: [NaN], a value or an
    infinity.  The access gate only handles integers (epoch milliseconds,
    [Z]); the player handles seconds ([Q]), of which the doubles are the
    rationals [m * 2^e] described below. *)
Inductive number (A : Type) : Type :=
  | NaN : number A
  | Val : A -> number A
  | Infinity : bool -> number A.   (* [true]: negative *)
Arguments NaN {A}.
Arguments Val {A} _.
Arguments Infinity {A} _.

(** Exceptions that the modelled calls can raise. *)
Inductive exn : Type :=
  | SecurityError   (* storage access refused by the browser *)
  | TypeError       (* property access on null, non-finite media time *)
  | SyntaxError.    (* a value assigned to location.href is not a URL *)

(** Completion of a call: a value, or a thrown exception. *)
Inductive completion (A : Type) : Type :=
  | Normal : A -> completion A
  | Throw : exn -> completion A.
Arguments Normal {A} _.
Arguments Throw {A} _.

#[global] Instance completion_ret : MRet completion := fun A a => Normal a.
#[global] Instance completion_bind : MBind completion := fun A B k c =>
  match c with
  | Normal a => k a
  | Throw e => Throw e
  end.

Definition code (c : ascii) : Z := Z.of_nat (nat_of_ascii c).

(** [StrWhiteSpaceChar] restricted to the code units a [string] holds:
    TAB, LF, VT, FF, CR, SP and NBSP. *)
Definition isWhiteSpace (c : ascii) : bool :=
  let n := code c in
  ((9 <=? n) && (n <=? 13)) || (n =? 32) || (n =? 160).

Fixpoint trimStart (s : string) : string :=
  match s with
  | String c s' => if isWhiteSpace c then trimStart s' else s
  | EmptyString => s
  end.

(** Value of a character as a digit, for radices up to 36. *)
Definition digitValue (c : ascii) : option Z :=
  let n := code c in
  if (48 <=? n) && (n <=? 57) then Some (n - 48)
  else if (97 <=? n) && (n <=? 122) then Some (n - 87)
  else if (65 <=? n) && (n <=? 90) then Some (n - 55)
  else None.

(** The longest prefix of [s] made of radix-[R] digits, as digit values. *)
Fixpoint digitsPrefix (R : Z) (s : string) : list Z :=
  match s with
  | String c s' =>
      match digitValue c with
      | Some d => if d <? R then d :: digitsPrefix R s' else []
      | None => []
      end
  | EmptyString => []
  end.

Definition mathInt (R : Z) (ds : list Z) : Z :=
  fold_left (fun acc d => acc * R + d) ds 0.

(** [parseInt(string)] with no radix argument (ECMA-262, 19.2.5): leading
    white space is skipped, a sign is read, a [0x]/[0X] prefix selects
    radix 16, and the longest digit prefix is converted; no digit at all
    gives [NaN].  The result is the exact integer. *)
Definition parseInt (input : string) : number Z :=
  let S0 := trimStart input in
  let '(sign, S1) :=
    match S0 with
    | String "-" r => (-1, r)
    | String "+" r => (1, r)
    | _ => (1, S0)
    end in
  let '(R, S2) :=
    match S1 with
    | String "0" (String "x" r) => (16, r)
    | String "0" (String "X" r) => (16, r)
    | _ => (10, S1)
    end in
  match digitsPrefix R S2 with
  | [] => NaN
  | ds => Val (sign * mathInt R ds)
  end.

(** Decimal digits of a non-negative integer, least significant first. *)
Fixpoint digitsOf (fuel : nat) (n : Z) : list Z :=
  match fuel with
  | O => []
  | S f => (n mod 10) :: (if n / 10 =? 0 then [] else digitsOf f (n / 10))
  end.

Definition digitChar (d : Z) : ascii := ascii_of_nat (Z.to_nat (48 + d)).

Definition decimal (n : Z) : string :=
  string_of_list_ascii
    (map digitChar (rev (digitsOf (S (Z.to_nat (Z.log2 n))) n))).

(** [Number.prototype.toString()] on an integer: the decimal digits,
    preceded by [-] when negative.  (ECMAScript switches to exponent
    notation from 10^21 on, far beyond any time value.) *)
Definition Number_toString (n : Z) : string :=
  if n <? 0 then String "-" (decimal (- n)) else decimal n.

(** What follows the longest digit prefix. *)
Fixpoint dropDigits (s : string) : string :=
  match s with
  | String c s' =>
      match digitValue c with
      | Some d => if d <? 10 then dropDigits s' else s
      | None => s
      end
  | EmptyString => s
  end.

(** [ExponentPart]: [e] or [E], an optional sign, at least one digit.
    Without a digit the exponent is not part of the literal. *)
Definition exponentPart (s : string) : Z :=
  match s with
  | String c r =>
      if (code c =? 101) || (code c =? 69) then
        let '(esign, r') :=
          match r with
          | String "-" r' => (-1, r')
          | String "+" r' => (1, r')
          | _ => (1, r)
          end in
        match digitsPrefix 10 r' with
        | [] => 0
        | ds => esign * mathInt 10 ds
        end
      else 0
  | EmptyString => 0
  end.

Definition pow10 (e : Z) : Q :=
  if e <? 0 then 1 # Z.to_pos (10 ^ (- e)) else inject_Z (10 ^ e).

(** *** Numbers of the double format *)

(** A finite Number is a rational [m * 2^e] with [|m| < 2^53] and
    [-1074 <= e <= 971].  The rational stands for the Number, so that the
    two zeros, which [toString] prints alike and [===] identifies, are
    one. *)
Definition double (m e : Z) : Q := (inject_Z m * 2 ^ e)%Q.

(** Floor of the binary logarithm of a positive rational. *)
Definition ilog2 (q : Q) : Z :=
  let t := Z.log2 (Qnum q) - Z.log2 (Zpos (Qden q)) in
  if Qle_bool (2 ^ t) q then t else t - 1.

(** The nearest integer, the even one of two that are equally near. *)
Definition roundTiesToEven (q : Q) : Z :=
  let f := Qfloor q in
  match (q - inject_Z f ?= 1 # 2)%Q with
  | Lt => f
  | Gt => f + 1
  | Eq => if Z.even f then f else f + 1
  end.

(** The Number value for a real (ECMA-262, 6.1.6.1): the nearest double,
    with 53 bits above the exponent [-1022] and a fixed step of [2^-1074]
    below, ties going to the even significand; from [2^1024] on, an
    infinity. *)
Definition roundToDouble (q : Q) : number Q :=
  let q := Qred q in
  if Qeq_bool q 0 then Val 0%Q
  else
    let a := Qabs q in
    let p := Z.max (ilog2 a) (-1022) - 52 in
    let v := (inject_Z (roundTiesToEven (a / 2 ^ p)) * 2 ^ p)%Q in
    if Qle_bool (2 ^ 1024) v then Infinity (Qnum q <? 0)
    else Val (Qred (if Qnum q <? 0 then - v else v)).

(** [parseFloat(string)] (ECMA-262, 19.2.4): after leading white space, the
    longest prefix that is a [StrDecimalLiteral]; none gives [NaN].  The
    result is the Number value of the decimal that the literal denotes. *)
Definition parseFloat (input : string) : number Q :=
  let S0 := trimStart input in
  let '(negative, S1) :=
    match S0 with
    | String "-" r => (true, r)
    | String "+" r => (false, r)
    | _ => (false, S0)
    end in
  if String.prefix "Infinity" S1 then Infinity negative
  else
    let int := digitsPrefix 10 S1 in
    let S2 := dropDigits S1 in
    let '(frac, S3) :=
      match S2 with
      | String "." r => (digitsPrefix 10 r, dropDigits r)
      | _ => ([], S2)
      end in
    match int, frac with
    | [], [] => NaN
    | _, _ =>
        let mantissa :=
          (inject_Z (mathInt 10 int)
           + inject_Z (mathInt 10 frac) * pow10 (- Z.of_nat (length frac)))%Q in
        let v := (mantissa * pow10 (exponentPart S3))%Q in
        roundToDouble (if negative then - v else v)
    end.

(** *** Number::toString *)

(** The decimal digits of a positive integer, most significant first, and
    their number. *)
Definition decimalDigits (n : Z) : list Z :=
  rev (digitsOf (S (Z.to_nat (Z.log2 n))) n).

Definition numDigits (n : Z) : Z := Z.of_nat (length (decimalDigits n)).

Definition digitString (ds : list Z) : string :=
  string_of_list_ascii (map digitChar ds).

(** The decade of a positive rational: the [n] with
    [10^(n-1) <= q < 10^n]. *)
Definition decade (q : Q) : Z :=
  let t := numDigits (Qnum q) - numDigits (Zpos (Qden q)) in
  if Qle_bool (10 ^ t) q then t + 1 else t.

(** The condition of Number::toString, step 5, on [n] and [s], with [k]
    the number of digits of [s]: [s] is positive and the Number value of
    [s * 10^(n-k)] is [x]. *)
Definition denotes (x : Q) (n s : Z) : bool :=
  (0 <? s) &&
  match roundToDouble (inject_Z s * 10 ^ (n - numDigits s)) with
  | Val y => Qeq_bool y x
  | _ => false
  end.

(** The decimals of [k] digits next to [x], below and above, [x] lying in
    the decade [n]; the one above may be [10^k], which is [1] followed by
    zeros in the next decade.  Of those that denote [x], the nearer one,
    and of two equally near the even one. *)
Definition nearest (x : Q) (n k : Z) : option (Z * Z) :=
  let r := (x * 10 ^ (k - n))%Q in
  let lo := (n, Qfloor r) in
  let hi := if Qceiling r =? 10 ^ k then (n + 1, 10 ^ (k - 1))
            else (n, Qceiling r) in
  match denotes x lo.1 lo.2, denotes x hi.1 hi.2 with
  | true, true =>
      match (r - inject_Z (Qfloor r) ?= inject_Z (Qceiling r) - r)%Q with
      | Lt => Some lo
      | Gt => Some hi
      | Eq => if Z.even lo.2 then Some lo else Some hi
      end
  | true, false => Some lo
  | false, true => Some hi
  | false, false => None
  end.

(** The least [k], from [k] on, at which a decimal denotes [x]. *)
Fixpoint shortest (fuel : nat) (x : Q) (n k : Z) : option (Z * Z) :=
  match fuel with
  | O => None
  | S fuel' =>
      match nearest x n k with
      | Some r => Some r
      | None => shortest fuel' x n (k + 1)
      end
  end.

(** The exponent of the scientific notation: [e], the sign, the digits. *)
Definition exponentString (e : Z) : string :=
  (if e <? 0 then "e-" else "e+") ++ decimal (Z.abs e).

(** Number::toString, steps 7 to 11: the digits [ds] of [s], with the
    point after the first [n] of them. *)
Definition formatDecimal (n : Z) (ds : list Z) : string :=
  let k := Z.of_nat (length ds) in
  if (k <=? n) && (n <=? 21) then
    digitString (ds ++ repeat 0 (Z.to_nat (n - k)))
  else if (0 <? n) && (n <=? 21) then
    digitString (take (Z.to_nat n) ds) ++ "." ++ digitString (drop (Z.to_nat n) ds)
  else if (-6 <? n) && (n <=? 0) then
    "0." ++ digitString (repeat 0 (Z.to_nat (- n)) ++ ds)
  else
    match ds with
    | [] => exponentString (n - 1)
    | [d] => digitString [d] ++ exponentString (n - 1)
    | d :: ds' =>
        digitString [d] ++ "." ++ digitString ds' ++ exponentString (n - 1)
    end.

(** Number::toString on a positive double: the shortest decimal that
    denotes it.  A double has an exact decimal expansion, of fewer digits
    than the bound, so the search ends. *)
Definition toStringPositive (x : Q) : string :=
  match shortest 1400 x (decade x) 1 with
  | Some (n, s) => formatDecimal n (decimalDigits s)
  | None => "NaN"
  end.

(** [Number.prototype.toString()] (ECMA-262, 6.1.6.1.20, radix 10) on the
    Number value of [q]. *)
Definition Number_toString_double (q : Q) : string :=
  match roundToDouble q with
  | NaN => "NaN"
  | Infinity negative => if negative then "-Infinity" else "Infinity"
  | Val x =>
      if Qeq_bool x 0 then "0"
      else if Qnum x <? 0 then "-" ++ toStringPositive (- x)
      else toStringPositive x
  end.

(** [ToBoolean] on a string: only the empty string is falsy. *)
Definition truthy (s : string) : bool :=
  match s with EmptyString => false | _ => true end.

End JS.
Import JS.

(** ** Browser surface: storage, URLs, JSON *)

Module Browser.

(** [window.localStorage].  A browser that refuses storage access makes
    every call throw; otherwise it is a map from keys to string values. *)
Inductive Storage : Type :=
  | Unavailable
  | Items (m : gmap string string).

Definition getItem (ls : Storage) (k : string) : completion (option string) :=
  match ls with
  | Unavailable => Throw SecurityError
  | Items m => Normal (m !! k)
  end.

Definition setItem (ls : Storage) (k v : string) : completion Storage :=
  match ls with
  | Unavailable => Throw SecurityError
  | Items m => Normal (Items (<[k := v]> m))
  end.

(** A parsed URL: [origin] as serialised (["https://host"]), [pathname]
    the serialised path, which begins with a slash, [search] the query as
    the ordered list of pairs that [URLSearchParams] iterates over. *)
Record URL : Type := mkURL {
  origin : string;
  pathname : string;
  search : list (string * string);
  hash : string
}.

(** [URLSearchParams.prototype.get]: the value of the first pair named
    [name], or [null]. *)
Fixpoint URLSearchParams_get (ps : list (string * string)) (name : string)
  : option string :=
  match ps with
  | [] => None
  | (k, v) :: ps' => if String.eqb k name then Some v else URLSearchParams_get ps' name
  end.

(** [URLSearchParams.prototype.set]: the first pair named [name] takes the
    value, later ones are removed; with no such pair one is appended. *)
Fixpoint URLSearchParams_set (ps : list (string * string)) (name value : string)
  : list (string * string) :=
  match ps with
  | [] => [(name, value)]
  | (k, v) :: ps' =>
      if String.eqb k name
      then (name, value) :: filter (fun p => negb (String.eqb (fst p) name)) ps'
      else (k, v) :: URLSearchParams_set ps' name value
  end.

(** The URL parser counts a backslash as a slash. *)
Definition isSlash (c : ascii) : bool :=
  Ascii.eqb c "/" || Ascii.eqb c (ascii_of_nat 92).

Fixpoint skipSlashes (s : string) : string :=
  match s with
  | String c s' => if isSlash c then skipSlashes s' else s
  | EmptyString => s
  end.

(** [s] up to its first slash, and the rest from that slash on. *)
Fixpoint uptoSlash (s : string) : string * string :=
  match s with
  | String c s' =>
      if isSlash c then ("", s)
      else let (a, r) := uptoSlash s' in (String c a, r)
  | EmptyString => ("", "")
  end.

(** A string that begins with two slashes is, for the URL parser, a
    scheme-relative URL: after the slashes comes the authority it names,
    then the path. *)
Definition schemeRelative (p : string) : option (string * string) :=
  match p with
  | String a (String b rest) =>
      if isSlash a && isSlash b then Some (uptoSlash (skipSlashes rest))
      else None
  | _ => None
  end.

(** What follows the scheme in a serialised origin: ["//host"]. *)
Fixpoint afterScheme (o : string) : string :=
  match o with
  | String c o' => if Ascii.eqb c ":" then o' else afterScheme o'
  | EmptyString => ""
  end.

(** [history.replaceState({}, title, location.pathname)].  The path is
    parsed against the document's address; the call throws a
    [SecurityError] unless the result is of the document's origin.  A path
    that begins with a single slash stays on the origin: the address keeps
    origin and path, query and fragment are gone.  A path that begins with
    two slashes names an authority; the call goes through only if that is
    the document's own (compared here as written, in serialised form), and
    the address is then what follows the authority. *)
Definition replaceState_pathname (u : URL) : completion URL :=
  match schemeRelative (pathname u) with
  | None => Normal (mkURL (origin u) (pathname u) [] "")
  | Some (authority, path) =>
      if String.eqb ("//" ++ authority) (afterScheme (origin u))
      then Normal (mkURL (origin u) (if String.eqb path "" then "/" else path)
                         [] "")
      else Throw SecurityError
  end.

(** A parsed JSON document; an object lists its properties. *)
Inductive json : Type :=
  | JNull
  | JBool (b : bool)
  | JNumber (q : Q)
  | JString (s : string)
  | JArray (l : list json)
  | JObject (fields : list (string * json)).

Fixpoint lookupField (fields : list (string * json)) (name : string) : option json :=
  match fields with
  | [] => None
  | (k, v) :: fs => if String.eqb k name then Some v else lookupField fs name
  end.

(** [data.name] on a parsed document: [null] throws, an object answers
    with the property or [undefined] ([None]), every other value has no
    such property. *)
Definition getProp (data : json) (name : string) : completion (option json) :=
  match data with
  | JNull => Throw TypeError
  | JObject fields => Normal (lookupField fields name)
  | _ => Normal None
  end.

(** [ToBoolean] on a property value. *)
Definition toBoolean (v : option json) : bool :=
  match v with
  | None => false
  | Some JNull => false
  | Some (JBool b) => b
  | Some (JNumber q) => negb (Qeq_bool q 0)
  | Some (JString s) => truthy s
  | Some (JArray _) => true
  | Some (JObject _) => true
  end.

(** How the awaited [fetch(apiUrl)] followed by [response.json()] ends,
    and, for a parsed document, what the browser makes of the value the
    flow may then assign to [window.location.href]: the setter throws a
    [SyntaxError] when the value does not parse as a URL (as ["https://"]
    does not), and the flow's [catch] takes over. *)
Inductive FetchOutcome : Type :=
  | Rejected                  (* the request fails *)
  | NotJson                   (* the body does not parse *)
  | Body (data : json)        (* a document; a value assigned from it parses *)
  | Unnavigable (data : json). (* a document; a value assigned from it does not *)

(** [a || b] on property values. *)
Definition orElse (a b : option json) : option json :=
  if toBoolean a then a else b.

(** What [window.location.href] was assigned: a property value of the
    response (converted to a string by the browser) or a serialised URL. *)
Inductive target : Type :=
  | ToValue (v : option json)
  | ToURL (u : URL).

End Browser.
Import Browser.

(** ** The access gate *)

Module AccessControl.

Definition dayInMs : Z := 24 * 60 * 60 * 1000.

(** [checkAccess], the same in both variants (AccessControl.tsx 18-33,
    part_002 16-32); [now] is the reading of [Date.now()]. *)
Definition checkAccess (ls : Storage) (now : Z) : bool :=
  match getItem ls "access_granted" with
  | Throw _ => false
  | Normal None => false
  | Normal (Some accessGranted) =>
      if negb (truthy accessGranted) then false
      else
        match parseInt accessGranted with
        | NaN => false
        | Val accessTime => now - accessTime <? dayInMs
        | Infinity negative => negb negative
        end
  end.

(** The page as the component sees it: storage, address, the three pieces
    of React state, whether the component is mounted, the due times of the
    pending [setTimeout] callbacks (each one calls [redirectToShortener]),
    the number of redirect flows awaiting the shortener, and the last value
    assigned to [window.location.href]. *)
Record World : Type := mkWorld {
  localStorage : Storage;
  location : URL;
  hasAccess : bool;
  isChecking : bool;
  isRedirecting : bool;
  mounted : bool;
  timers : list Z;
  inflight : nat;
  href : option target
}.

Definition setLocalStorage (ls : Storage) (w : World) : World :=
  mkWorld ls (location w) (hasAccess w) (isChecking w) (isRedirecting w)
          (mounted w) (timers w) (inflight w) (href w).

Definition setLocation (u : URL) (w : World) : World :=
  mkWorld (localStorage w) u (hasAccess w) (isChecking w) (isRedirecting w)
          (mounted w) (timers w) (inflight w) (href w).

(** React state setters: an update on an unmounted component is dropped. *)
Definition setHasAccess (b : bool) (w : World) : World :=
  if mounted w
  then mkWorld (localStorage w) (location w) b (isChecking w) (isRedirecting w)
               (mounted w) (timers w) (inflight w) (href w)
  else w.

Definition setIsChecking (b : bool) (w : World) : World :=
  if mounted w
  then mkWorld (localStorage w) (location w) (hasAccess w) b (isRedirecting w)
               (mounted w) (timers w) (inflight w) (href w)
  else w.

Definition setIsRedirecting (b : bool) (w : World) : World :=
  if mounted w
  then mkWorld (localStorage w) (location w) (hasAccess w) (isChecking w) b
               (mounted w) (timers w) (inflight w) (href w)
  else w.

Definition setMounted (b : bool) (w : World) : World :=
  mkWorld (localStorage w) (location w) (hasAccess w) (isChecking w)
          (isRedirecting w) b (timers w) (inflight w) (href w).

Definition setTimers (ts : list Z) (w : World) : World :=
  mkWorld (localStorage w) (location w) (hasAccess w) (isChecking w)
          (isRedirecting w) (mounted w) ts (inflight w) (href w).

Definition setInflight (n : nat) (w : World) : World :=
  mkWorld (localStorage w) (location w) (hasAccess w) (isChecking w)
          (isRedirecting w) (mounted w) (timers w) n (href w).

(** [window.location.href = t]. *)
Definition navigate (t : target) (w : World) : World :=
  mkWorld (localStorage w) (location w) (hasAccess w) (isChecking w)
          (isRedirecting w) (mounted w) (timers w) (inflight w) (Some t).

(** [window.location.href = v] for a property value [v] of the response:
    the setter throws when the value does not parse as a URL. *)
Definition assignHref (parses : bool) (v : option json) (w : World)
  : completion World :=
  if parses then Normal (navigate (ToValue v) w) else Throw SyntaxError.

(** [setTimeout(() => redirectToShortener(), delay)]. *)
Definition setTimeout (delay now : Z) (w : World) : World :=
  setTimers (timers w ++ [now + delay]) w.

(** A freshly loaded page showing the component: [useState] defaults, the
    mount effect not yet run. *)
Definition load (u : URL) (ls : Storage) : World :=
  mkWorld ls u false true false true [] 0 None.

(** What the component renders. *)
Inductive view : Type := Checking | Denied | Granted.

Definition render (w : World) : view :=
  if isChecking w then Checking
  else if negb (hasAccess w) then Denied
  else Granted.

(** The mount effect, the same in both variants (AccessControl.tsx 71-96,
    part_002 66-90), with the world it leaves and the exception it ended
    with, if any: what ran before a throw stays done.  It returns no
    cleanup function. *)
Definition useEffect_body (now : Z) (w : World) : World * option exn :=
  let urlParams := search (location w) in
  let fromShortener := URLSearchParams_get urlParams "from_shortener" in
  if bool_decide (fromShortener = Some "true") then
    match setItem (localStorage w) "access_granted" (Number_toString now) with
    | Throw e => (w, Some e)
    | Normal ls =>
        let w1 := setLocalStorage ls w in
        let w2 := setHasAccess true w1 in
        let w3 := setIsChecking false w2 in
        match replaceState_pathname (location w3) with
        | Throw e => (w3, Some e)
        | Normal u => (setLocation u w3, None)
        end
    end
  else
    let accessValid := checkAccess (localStorage w) now in
    let w1 := setHasAccess accessValid w in
    let w2 := setIsChecking false w1 in
    (if negb accessValid then setTimeout 2000 now w2 else w2, None).

(** The effect as a computation that returns or throws. *)
Definition useEffect (now : Z) (w : World) : completion World :=
  match useEffect_body now w with
  | (w', None) => Normal w'
  | (_, Some e) => Throw e
  end.

(** What React runs when the component unmounts: the effect returned no
    cleanup function, so nothing. *)
Definition useEffect_cleanup (w : World) : World := w.

(** [new URL(homepageUrl)] with [from_shortener=true] set on it. *)
Definition returnUrl (homepageUrl : URL) : URL :=
  mkURL (origin homepageUrl) (pathname homepageUrl)
        (URLSearchParams_set (search homepageUrl) "from_shortener" "true")
        (hash homepageUrl).

(** [redirectToShortener] up to its first [await]: the flag is raised and
    the request leaves. *)
Definition redirectToShortener_begin (w : World) : World :=
  let w1 := setIsRedirecting true w in
  setInflight (S (inflight w1)) w1.

(** The [finally] block, once the flow is over. *)
Definition finally (w : World) : World :=
  let w1 := setIsRedirecting false w in
  setInflight (pred (inflight w1)) w1.

(** [data.status === 'success']. *)
Definition isSuccess (status : option json) : bool :=
  match status with
  | Some (JString s) => String.eqb s "success"
  | _ => false
  end.

(** src/components/AccessControl.tsx, lines 36-69. *)
Module Tsx.

(** The [try] block after the two awaits (lines 52-59); [parses] tells
    whether the browser takes the response's value as a URL. *)
Definition onResponse (homepageUrl : URL) (parses : bool) (data : json)
    (w : World) : completion World :=
  status ← getProp data "status";
  shortenedUrl ← getProp data "shortenedUrl";
  if isSuccess status && toBoolean shortenedUrl
  then assignHref parses shortenedUrl w
  else mret (navigate (ToURL (returnUrl homepageUrl)) w).

(** The [catch] block (lines 60-65). *)
Definition onError (homepageUrl : URL) (w : World) : World :=
  navigate (ToURL (returnUrl homepageUrl)) w.

(** The flow from the moment the awaited request settles. *)
Definition redirectToShortener_settle (homepageUrl : URL)
    (outcome : FetchOutcome) (w : World) : World :=
  let w' :=
    match outcome with
    | Rejected | NotJson => onError homepageUrl w
    | Body data =>
        match onResponse homepageUrl true data w with
        | Normal w1 => w1
        | Throw _ => onError homepageUrl w
        end
    | Unnavigable data =>
        match onResponse homepageUrl false data w with
        | Normal w1 => w1
        | Throw _ => onError homepageUrl w
        end
    end in
  finally w'.

Definition redirectToShortener (homepageUrl : URL) (outcome : FetchOutcome)
    (w : World) : World :=
  redirectToShortener_settle homepageUrl outcome (redirectToShortener_begin w).

End Tsx.

(** src/unnamed/part_002, lines 34-64. *)
Module Part002.

(** The fallback of lines 52-54 and 58-60: a grant written on the spot. *)
Definition grantLocally (now : Z) (w : World) : completion World :=
  ls ← setItem (localStorage w) "access_granted" (Number_toString now);
  mret (setHasAccess true (setLocalStorage ls w)).

(** The [try] block after the two awaits (lines 47-55); [parses] tells
    whether the browser takes the response's value as a URL. *)
Definition onResponse (now : Z) (parses : bool) (data : json) (w : World)
  : completion World :=
  shortenedUrl ← getProp data "shortenedUrl";
  shorturl ← getProp data "shorturl";
  if toBoolean (orElse shortenedUrl shorturl)
  then assignHref parses (orElse shortenedUrl shorturl) w
  else grantLocally now w.

(** The [catch] block (lines 56-60); an exception raised inside it leaves
    the flow with the state as it was. *)
Definition onError (now : Z) (w : World) : World :=
  match grantLocally now w with
  | Normal w1 => w1
  | Throw _ => w
  end.

Definition redirectToShortener_settle (now : Z) (outcome : FetchOutcome)
    (w : World) : World :=
  let w' :=
    match outcome with
    | Rejected | NotJson => onError now w
    | Body data =>
        match onResponse now true data w with
        | Normal w1 => w1
        | Throw _ => onError now w
        end
    | Unnavigable data =>
        match onResponse now false data w with
        | Normal w1 => w1
        | Throw _ => onError now w
        end
    end in
  finally w'.

Definition redirectToShortener (now : Z) (outcome : FetchOutcome) (w : World)
  : World :=
  redirectToShortener_settle now outcome (redirectToShortener_begin w).

End Part002.

(** *** The component as an event-driven machine *)

Inductive variant : Type := VTsx | VPart002.

Inductive event : Type :=
  | EMount (now : Z)                         (* the mount effect runs; if it
                                                throws, React, with no error
                                                boundary around, unmounts
                                                the tree *)
  | EUnmount                                 (* the component goes away *)
  | EClick                                   (* the button's [onClick] *)
  | ETimer (now : Z)                         (* a due timer fires *)
  | ESettle (now : Z) (outcome : FetchOutcome). (* an awaited request settles *)

(** Removes the first timer that is due at [now], if any. *)
Fixpoint takeDue (now : Z) (ts : list Z) : option (list Z) :=
  match ts with
  | [] => None
  | t :: ts' =>
      if t <=? now then Some ts'
      else match takeDue now ts' with
           | Some r => Some (t :: r)
           | None => None
           end
  end.

(** The button is rendered in the [Denied] view and disabled while a
    redirect is in flight (lines 123-125 / 117-119). *)
Definition buttonEnabled (w : World) : bool :=
  mounted w && match render w with Denied => true | _ => false end
  && negb (isRedirecting w).

Definition settle (v : variant) (homepageUrl : URL) (now : Z)
    (outcome : FetchOutcome) (w : World) : World :=
  match v with
  | VTsx => Tsx.redirectToShortener_settle homepageUrl outcome w
  | VPart002 => Part002.redirectToShortener_settle now outcome w
  end.

Definition step (v : variant) (homepageUrl : URL) (e : event) (w : World)
  : World :=
  match e with
  | EMount now =>
      match useEffect_body now w with
      | (w', None) => w'
      | (w', Some _) => setMounted false w'
      end
  | EUnmount => setMounted false (useEffect_cleanup w)
  | EClick => if buttonEnabled w then redirectToShortener_begin w else w
  | ETimer now =>
      match takeDue now (timers w) with
      | Some ts => redirectToShortener_begin (setTimers ts w)
      | None => w
      end
  | ESettle now outcome =>
      match inflight w with
      | O => w
      | S _ => settle v homepageUrl now outcome w
      end
  end.

Definition run (v : variant) (homepageUrl : URL) (es : list event) (w : World)
  : World :=
  fold_left (fun w e => step v homepageUrl e w) es w.

(** *** Vocabulary for the redirect flow *)

(** The property [name] is absent from the response (or cannot be read). *)
Definition missing (data : json) (name : string) : bool :=
  match getProp data name with
  | Normal (Some _) => false
  | _ => true
  end.

(** A round trip that did not produce a shortened URL: the request failed,
    the body did not parse, or the document has neither URL field. *)
Definition failed (o : FetchOutcome) : bool :=
  match o with
  | Rejected | NotJson => true
  | Body data => missing data "shortenedUrl" && missing data "shorturl"
  | Unnavigable data => missing data "shortenedUrl" && missing data "shorturl"
  end.

(** The response carries the non-empty URL [u] under [name]. *)
Definition carries (data : json) (name u : string) : Prop :=
  getProp data name = Normal (Some (JString u)) /\ u <> "".

(** The property [name] is readable and falsy (absent, [null], empty...). *)
Definition falsy (data : json) (name : string) : Prop :=
  exists x, getProp data name = Normal x /\ toBoolean x = false.

(** The browser was sent to the URL [u] found in the response. *)
Definition navigatesTo (w : World) (u : string) : Prop :=
  href w = Some (ToValue (Some (JString u))).

(** The gate shows the protected content and holds a grant stamped [now]. *)
Definition grantedAt (now : Z) (w : World) : Prop :=
  render w = Granted /\
  getItem (localStorage w) "access_granted" = Normal (Some (Number_toString now)).

(** *** Concrete pages and responses used in the examples *)

Module Scenario.

(** The portal's own address, and the default [homepageUrl] prop. *)
Definition portal : URL := mkURL "https://portal.example" "/" [] "".
Definition home : URL := mkURL "https://mywebsite.com" "/" [] "".

(** A first-time visitor whose mount effect ran at [t0]: the gate is in
    the [Denied] view and the auto-redirect timer is pending. *)
Definition t0 : Z := 1700000000000.
Definition denied : World :=
  mkWorld (Items ∅) portal false false false true [t0 + 2000] 0 None.

(** A response with neither URL field. *)
Definition emptyBody : json := JObject [].

(** Success responses carrying the URL under one name or the other. *)
Definition short : string := "https://vplink.in/ms1".
Definition bodyShortenedUrl : json :=
  JObject [("status", JString "success"); ("shortenedUrl", JString short)].
Definition bodyShorturl : json :=
  JObject [("status", JString "success"); ("shorturl", JString short)].

(** An error response that carries a URL all the same. *)
Definition bodyErrorStatus : json :=
  JObject [("status", JString "error"); ("shortenedUrl", JString short)].

End Scenario.

End AccessControl.
(** ** The playback controller *)

Module VideoPlayer.

(** *** The progress key *)

(** The base64 alphabet. *)
Definition b64 (n : N) : ascii :=
  if (n <? 26)%N then ascii_of_N (65 + n)
  else if (n <? 52)%N then ascii_of_N (97 + (n - 26))
  else if (n <? 62)%N then ascii_of_N (48 + (n - 52))
  else if (n =? 62)%N then "+"%char
  else "/"%char.

(** [btoa] on the code units of the string: three bytes give four
    characters, a shorter tail is padded with [=].  (Code units above 255,
    on which [btoa] throws, are not values of [string].) *)
Fixpoint btoa (s : string) : string :=
  match s with
  | String a (String b (String c rest)) =>
      let n := (N_of_ascii a * 65536 + N_of_ascii b * 256 + N_of_ascii c)%N in
      String (b64 (n / 262144 mod 64)%N)
        (String (b64 (n / 4096 mod 64)%N)
          (String (b64 (n / 64 mod 64)%N)
            (String (b64 (n mod 64)%N) (btoa rest))))
  | String a (String b EmptyString) =>
      let n := (N_of_ascii a * 65536 + N_of_ascii b * 256)%N in
      String (b64 (n / 262144 mod 64)%N)
        (String (b64 (n / 4096 mod 64)%N)
          (String (b64 (n / 64 mod 64)%N) "="))
  | String a EmptyString =>
      let n := (N_of_ascii a * 65536)%N in
      String (b64 (n / 262144 mod 64)%N)
        (String (b64 (n / 4096 mod 64)%N) "==")
  | EmptyString => EmptyString
  end.

(** Line 32 (part_001: 27): [btoa(url).substring(0, 20)]. *)
Definition videoId (url : string) : string := substring 0 20 (btoa url).

Definition progressKey (url : string) : string :=
  "video_progress_" ++ videoId url.

(** *** The media element and the component state *)

(** The [<video>] element: its position and, once the metadata is there,
    its duration. *)
Record Video : Type := mkVideo {
  v_currentTime : Q;
  v_duration : option Q
}.

(** Assignment to [video.currentTime].  The attribute is a restricted
    double, so a non-finite value throws; with metadata loaded the element
    seeks, and the seek target is brought into the media's range; before,
    the value is kept as the start position. *)
Definition Video_setCurrentTime (t : number Q) (v : Video) : completion Video :=
  match t with
  | Val q =>
      match v_duration v with
      | Some d => Normal (mkVideo (Qmin (Qmax q 0) d) (Some d))
      | None => Normal (mkVideo q None)
      end
  | _ => Throw TypeError
  end.

(** The component: the ref to the element, the React state the claims
    speak of, the storage, and the list of [setItem] calls made so far. *)
Record Player : Type := mkPlayer {
  videoRef : option Video;
  currentTime : Q;
  duration : Q;
  localStorage : Storage;
  written : list (string * string)
}.

Definition setCurrentTime (t : Q) (p : Player) : Player :=
  mkPlayer (videoRef p) t (duration p) (localStorage p) (written p).

Definition setDuration (d : Q) (p : Player) : Player :=
  mkPlayer (videoRef p) (currentTime p) d (localStorage p) (written p).

Definition setVideo (v : Video) (p : Player) : Player :=
  mkPlayer (Some v) (currentTime p) (duration p) (localStorage p) (written p).

(** [localStorage.setItem(k, v)] from the component. *)
Definition store (k v : string) (p : Player) : completion Player :=
  ls ← setItem (localStorage p) k v;
  mret (mkPlayer (videoRef p) (currentTime p) (duration p) ls
                 (written p ++ [(k, v)])).

(** A player just rendered for [url]: [useState] defaults. *)
Definition initial (v : option Video) (ls : Storage) : Player :=
  mkPlayer v 0%Q 0%Q ls [].

Section Controller.

(** [Number.prototype.toString] on a position in seconds, a parameter of
    the controller; the engine's function is [JS.Number_toString_double]. *)
Variable Number_toString : Q -> string.

(** The stream address, a prop of the component. *)
Variable url : string.

(** The start of the mount effect, lines 35-42 (part_001: 30-37). *)
Definition loadSavedProgress (p : Player) : completion Player :=
  match videoRef p with
  | None => mret p
  | Some video =>
      savedProgress ← getItem (localStorage p) (progressKey url);
      match savedProgress with
      | Some s =>
          if truthy s then
            video' ← Video_setCurrentTime (parseFloat s) video;
            mret (setVideo video' p)
          else mret p
      | None => mret p
      end
  end.

(** [Math.floor(t) % 5 === 0]; [%] takes the sign of the dividend. *)
Definition onFiveSecondMark (t : Q) : bool := Z.rem (Qfloor t) 5 =? 0.

(** Lines 134-144 (part_001: 121-131). *)
Definition handleTimeUpdate (p : Player) : completion Player :=
  match videoRef p with
  | None => mret p
  | Some video =>
      let p1 := setCurrentTime (v_currentTime video) p in
      if onFiveSecondMark (v_currentTime video)
      then store (progressKey url) (Number_toString (v_currentTime video)) p1
      else mret p1
  end.

(** Lines 146-150 (part_001: 133-137). *)
Definition handleLoadedMetadata (p : Player) : Player :=
  match videoRef p with
  | None => p
  | Some video =>
      match v_duration video with
      | Some d => setDuration d p
      | None => p
      end
  end.

(** Lines 152-163 (part_001: 139-150); [clientX] is the pointer's
    abscissa, [left] and [width] come from the track's bounding
    rectangle.  Dividing by a zero width gives [NaN] or an infinity. *)
Definition handleSeek (clientX left width : Q) (p : Player) : completion Player :=
  match videoRef p with
  | None => mret p
  | Some video =>
      if Qeq_bool (duration p) 0 then mret p
      else
        let clickX := (clientX - left)%Q in
        let newTime :=
          if Qeq_bool width 0 then
            if Qeq_bool clickX 0 then NaN
            else Infinity (xorb (negb (Qle_bool 0 clickX))
                                (negb (Qle_bool 0 (duration p))))
          else Val ((clickX / width) * duration p)%Q in
        video' ← Video_setCurrentTime newTime video;
        match newTime with
        | Val t => mret (setCurrentTime t (setVideo video' p))
        | _ => Throw TypeError
        end
  end.

(** The element plays on to position [t] and fires [timeupdate]. *)
Definition timeupdate (t : Q) (p : Player) : completion Player :=
  match videoRef p with
  | None => handleTimeUpdate p
  | Some video => handleTimeUpdate (setVideo (mkVideo t (v_duration video)) p)
  end.

(** A run of [timeupdate] events at the given positions. *)
Fixpoint playback (ts : list Q) (p : Player) : completion Player :=
  match ts with
  | [] => mret p
  | t :: ts' => p' ← timeupdate t p; playback ts' p'
  end.

End Controller.

(** *** Positions with a short exact decimal *)

(** Up to [fuel] digits after the point of a remainder [r/d], [0 <= r < d]. *)
Fixpoint fractionDigits (fuel : nat) (r d : Z) : list Z :=
  match fuel with
  | O => []
  | S f => if r =? 0 then [] else (10 * r / d) :: fractionDigits f (10 * r mod d) d
  end.

(** The exact decimal of a non-negative rational whose expansion ends
    within 20 places.  For a position such as 5.25, which a double holds
    exactly and in few digits, this is what [toString] prints. *)
Definition exactDecimal (q : Q) : string :=
  let d := Z.pos (Qden q) in
  let int := Qnum q / d in
  match fractionDigits 20 (Qnum q mod d) d with
  | [] => JS.Number_toString int
  | ds => JS.Number_toString int ++ "." ++ string_of_list_ascii (map digitChar ds)
  end.

(** Concrete players and event trains used in the examples. *)
Module Scenario.

Definition url1 : string := "https://cdn.example.com/physics/lecture-01/master.m3u8".
Definition url2 : string := "https://cdn.example.com/physics/lecture-02/master.m3u8".

(** A two-minute video at its start, metadata loaded, nothing stored. *)
Definition fresh : Player := initial (Some (mkVideo 0%Q (Some 120%Q))) (Items ∅).

(** [timeupdate] every 250 ms from 0 to 12 seconds. *)
Definition quarterTicks : list Q := map (fun k => Z.of_nat k # 4) (seq 0 49).

(** [timeupdate] once a second, on the second, from 0 to 12. *)
Definition secondTicks : list Q := map (fun k => inject_Z (Z.of_nat k)) (seq 0 13).


End Scenario.

End VideoPlayer.


(** ** Further parts of the player and of the catalogue *)

(** What the player shows besides the picture: the clock and the quality
    menu (src/components/VideoPlayer.tsx; the clock is the same in
    src/unnamed/part_001). *)
Module PlayerView.

Import VideoPlayer.

(** [s.padStart(2, '0')]. *)
Definition padStart2 (s : string) : string :=
  match s with
  | EmptyString => "00"
  | String c EmptyString => String "0" s
  | _ => s
  end.

(** [x % y] on numbers: the remainder has the sign of the dividend,
    [x - y * trunc(x / y)]. *)
Definition Qtrunc (q : Q) : Z := if Qle_bool 0 q then Qfloor q else Qceiling q.

Definition jsRem (x y : Q) : Q := (x - y * inject_Z (Qtrunc (x / y)))%Q.

(** Lines 165-169 (part_001: 152-156; LecturesSection.tsx: 89-93). *)
Definition formatTime (time : Q) : string :=
  let minutes := Qfloor (time / 60) in
  let seconds := Qfloor (jsRem time 60) in
  padStart2 (JS.Number_toString minutes) ++ ":"
  ++ padStart2 (JS.Number_toString seconds).

(** An entry of the quality menu. *)
Record QualityLevel : Type := mkLevel {
  height : Z;
  index : nat
}.

(** The [MANIFEST_PARSED] handler, lines 58-62: every level of the engine,
    given here by its height, is paired with its position. *)
Definition levelsOf (hlsLevels : list Z) : list QualityLevel :=
  imap (fun i h => mkLevel h i) hlsLevels.

(** [Array.prototype.sort(compare)].  The sort is stable, which fixes its
    result for a consistent [compare]; it is computed here by insertion,
    an element going behind those that do not compare greater. *)
Fixpoint insertSorted {A : Type} (compare : A -> A -> Z) (x : A) (l : list A)
  : list A :=
  match l with
  | [] => [x]
  | y :: l' =>
      if compare y x <=? 0 then y :: insertSorted compare x l' else x :: l
  end.

Definition Array_sort {A : Type} (compare : A -> A -> Z) (l : list A) : list A :=
  fold_left (fun acc x => insertSorted compare x acc) l [].

(** Lines 331-332: [qualityLevels.sort((a, b) => b.height - a.height)],
    the order in which the menu lists the levels. *)
Definition qualityMenu (qualityLevels : list QualityLevel) : list QualityLevel :=
  Array_sort (fun a b => height b - height a) qualityLevels.

End PlayerView.

(** The catalogue's view of the stored progress
    (src/components/LecturesSection.tsx). *)
Module LecturesSection.

Import VideoPlayer.

(** Lines 83-87; called while rendering, outside any [try]. *)
Definition getLastWatchedTime (ls : Storage) (link : string)
  : completion (number Q) :=
  let videoId := substring 0 20 (btoa link) in
  progress ← getItem ls ("video_progress_" ++ videoId);
  match progress with
  | Some s => if truthy s then mret (parseFloat s) else mret (Val 0%Q)
  | None => mret (Val 0%Q)
  end.

End LecturesSection.

(** ** Auxiliary notions for the proofs *)

Definition isDigit (d : Z) : Prop := 0 <= d < 10.

(** Little-endian value of a digit list. *)
Fixpoint valueLE (ds : list Z) : Z :=
  match ds with
  | [] => 0
  | d :: ds' => d + 10 * valueLE ds'
  end.

(** [parseInt] past its prefix handling, in radix 10. *)
Definition parseInt10 (sign : Z) (s : string) : number Z :=
  match digitsPrefix 10 s with
  | [] => NaN
  | ds => Val (sign * mathInt 10 ds)
  end.

(** [parseFloat] past white space, sign and [Infinity]. *)
Definition strDecimal (negative : bool) (S1 : string) : number Q :=
  let int := digitsPrefix 10 S1 in
  let S2 := dropDigits S1 in
  let '(frac, S3) :=
    match S2 with
    | String "." r => (digitsPrefix 10 r, dropDigits r)
    | _ => ([], S2)
    end in
  match int, frac with
  | [], [] => NaN
  | _, _ =>
      let mantissa :=
        (inject_Z (mathInt 10 int)
         + inject_Z (mathInt 10 frac) * pow10 (- Z.of_nat (length frac)))%Q in
      let v := (mantissa * pow10 (exponentPart S3))%Q in
      roundToDouble (if negative then - v else v)
  end.

(** What follows the digits of a printed Number: nothing, or an exponent. *)
Inductive tail : string -> Z -> Prop :=
  | tail_none : tail "" 0
  | tail_exponent e : tail (exponentString e) e.

Ltac digit_cases d H :=
  let Hc := fresh "Hc" in
  assert (Hc : d = 0 \/ d = 1 \/ d = 2 \/ d = 3 \/ d = 4 \/ d = 5 \/ d = 6
               \/ d = 7 \/ d = 8 \/ d = 9) by (unfold isDigit in H; lia);
  clear H;
  repeat (destruct Hc as [Hc | Hc]; [subst d |]); [.. | subst d].

(** The response offers something to navigate to: a truthy
    [shortenedUrl] or [shorturl] that the browser takes as a URL. *)
Definition offered (o : FetchOutcome) : option (option json) :=
  match o with
  | Body data =>
      match getProp data "shortenedUrl", getProp data "shorturl" with
      | Normal a, Normal b =>
          if toBoolean (orElse a b) then Some (orElse a b) else None
      | _, _ => None
      end
  | _ => None
  end.

(** What AccessControl.tsx accepts of an answer: the truthy [shortenedUrl]
    of a document whose [status] is ['success'], when the browser takes it
    as a URL. *)
Definition accepted (o : FetchOutcome) : option (option json) :=
  match o with
  | Body data =>
      match getProp data "status", getProp data "shortenedUrl" with
      | Normal st, Normal su =>
          if AccessControl.isSuccess st && toBoolean su then Some su else None
      | _, _ => None
      end
  | _ => None
  end.

(** Reading base64 back, to compare keys: the value of a character of the
    alphabet, and the bytes of an encoded string. *)
Definition b64inv (c : ascii) : N :=
  let n := N_of_ascii c in
  if ((65 <=? n) && (n <=? 90))%N then (n - 65)%N
  else if ((97 <=? n) && (n <=? 122))%N then (n - 71)%N
  else if ((48 <=? n) && (n <=? 57))%N then (n + 4)%N
  else if (n =? 43)%N then 62%N
  else 63%N.

Fixpoint atob (s : string) : string :=
  match s with
  | String c1 (String c2 (String c3 (String c4 rest))) =>
      let n := (b64inv c1 * 262144 + b64inv c2 * 4096)%N in
      if Ascii.eqb c3 "=" then String (ascii_of_N (n / 65536)) ""
      else
        let n := (n + b64inv c3 * 64)%N in
        if Ascii.eqb c4 "=" then
          String (ascii_of_N (n / 65536))
            (String (ascii_of_N (n / 256 mod 256)) "")
        else
          let n := (n + b64inv c4)%N in
          String (ascii_of_N (n / 65536))
            (String (ascii_of_N (n / 256 mod 256))
               (String (ascii_of_N (n mod 256)) (atob rest)))
  | _ => ""
  end.

(** The order of the quality menu: higher first, and among equal heights
    the engine's order. *)
Definition menuOrder (a b : PlayerView.QualityLevel) : Prop :=
  PlayerView.height b < PlayerView.height a \/
  (PlayerView.height b = PlayerView.height a /\
   (PlayerView.index a < PlayerView.index b)%nat).

(** * Properties *)

(** ** Number parsing and printing *)

Example parseInt_plain : parseInt "1700000000000" = Val 1700000000000.
Proof. reflexivity. Qed.
Example parseInt_garbage : parseInt "abc" = NaN.
Proof. reflexivity. Qed.
Example parseInt_prefix : parseInt "  -12px" = Val (-12).
Proof. reflexivity. Qed.
Example parseInt_hex : parseInt "0x1F" = Val 31.
Proof. reflexivity. Qed.
Example toString_now : Number_toString 1700000000000 = "1700000000000".
Proof. reflexivity. Qed.
Example toString_neg : Number_toString (-42) = "-42".
Proof. reflexivity. Qed.

Lemma digitValue_digitChar d : isDigit d -> digitValue (digitChar d) = Some d.
Proof.
  intros Hd. digit_cases d Hd; reflexivity.
Qed.

Lemma digitsOf_isDigit fuel : forall n, Forall isDigit (digitsOf fuel n).
Proof.
  induction fuel as [|f IH]; intros n; simpl; [constructor|].
  constructor.
  - unfold isDigit. apply Z.mod_pos_bound; lia.
  - destruct (n / 10 =? 0); [constructor | apply IH].
Qed.

Lemma digitsOf_nonempty fuel n : digitsOf (S fuel) n <> [].
Proof. simpl; discriminate. Qed.

Lemma mathInt_app ds d : mathInt 10 (ds ++ [d]) = mathInt 10 ds * 10 + d.
Proof. unfold mathInt. rewrite fold_left_app. reflexivity. Qed.

Lemma mathInt_rev ds : mathInt 10 (rev ds) = valueLE ds.
Proof.
  induction ds as [|d ds IH]; [reflexivity|].
  simpl rev. rewrite mathInt_app, IH. simpl. lia.
Qed.

Lemma valueLE_digitsOf fuel :
  forall n, 0 <= n < 2 ^ Z.of_nat fuel -> valueLE (digitsOf fuel n) = n.
Proof.
  induction fuel as [|f IH]; intros n Hn.
  - simpl in *. lia.
  - cbn [digitsOf valueLE].
    destruct (Z.eqb_spec (n / 10) 0) as [Hq | Hq].
    + simpl. pose proof (Z.div_mod n 10 ltac:(lia)). lia.
    + rewrite IH.
      * pose proof (Z.div_mod n 10 ltac:(lia)). lia.
      * rewrite Nat2Z.inj_succ, Z.pow_succ_r in Hn by lia.
        split; [apply Z.div_pos; lia|].
        apply Z.div_lt_upper_bound; lia.
Qed.

Lemma digitsPrefix_digits ds :
  Forall isDigit ds ->
  digitsPrefix 10 (string_of_list_ascii (map digitChar ds)) = ds.
Proof.
  induction 1 as [|d ds Hd _ IH]; [reflexivity|].
  cbn [map string_of_list_ascii digitsPrefix].
  rewrite (digitValue_digitChar d Hd).
  unfold isDigit in Hd. destruct (Z.ltb_spec d 10); [|lia].
  now rewrite IH.
Qed.

Lemma log2_fuel n : 0 <= n -> 0 <= n < 2 ^ Z.of_nat (S (Z.to_nat (Z.log2 n))).
Proof.
  intros Hn. split; [assumption|].
  rewrite Nat2Z.inj_succ, Z2Nat.id by apply Z.log2_nonneg.
  destruct (Z.eq_dec n 0) as [-> | Hz]; [reflexivity|].
  apply Z.log2_spec; lia.
Qed.

(** The decimal string of a non-negative integer starts with a digit and
    holds digits only. *)
Lemma decimal_shape n :
  0 <= n ->
  exists d ds, isDigit d /\ Forall isDigit ds /\
    decimal n = String (digitChar d) (string_of_list_ascii (map digitChar ds)) /\
    mathInt 10 (d :: ds) = n.
Proof.
  intros Hn. unfold decimal.
  set (fuel := S (Z.to_nat (Z.log2 n))).
  pose proof (digitsOf_isDigit fuel n) as Hall.
  pose proof (valueLE_digitsOf fuel n (log2_fuel n Hn)) as Hval.
  rewrite <- mathInt_rev in Hval.
  apply Forall_rev in Hall.
  destruct (rev (digitsOf fuel n)) as [|d ds] eqn:E.
  - apply (f_equal (@rev Z)) in E. rewrite rev_involutive in E.
    exfalso. now apply (digitsOf_nonempty (Z.to_nat (Z.log2 n)) n).
  - inversion Hall; subst. exists d, ds. repeat split; auto; unfold isDigit in *; lia.
Qed.

Lemma parseInt_nonzero_head d rest :
  isDigit d -> d <> 0 ->
  parseInt (String (digitChar d) rest) = parseInt10 1 (String (digitChar d) rest) /\
  parseInt (String "-" (String (digitChar d) rest))
  = parseInt10 (-1) (String (digitChar d) rest).
Proof.
  intros Hd Hnz. digit_cases d Hd; first [congruence | split; reflexivity].
Qed.

Lemma parseInt_zero_then_digit d rest :
  isDigit d ->
  parseInt (String "0" (String (digitChar d) rest))
  = parseInt10 1 (String "0" (String (digitChar d) rest)) /\
  parseInt (String "-" (String "0" (String (digitChar d) rest)))
  = parseInt10 (-1) (String "0" (String (digitChar d) rest)).
Proof. intros Hd. digit_cases d Hd; split; reflexivity. Qed.

(** A string of decimal digits, with or without a leading minus, is read
    back as its value: it carries no [0x] prefix and no white space. *)
Lemma parseInt_digits d ds :
  isDigit d -> Forall isDigit ds ->
  let s := String (digitChar d) (string_of_list_ascii (map digitChar ds)) in
  parseInt s = Val (mathInt 10 (d :: ds)) /\
  parseInt (String "-" s) = Val (- mathInt 10 (d :: ds)).
Proof.
  intros Hd Hds s.
  assert (Hp : forall sign, parseInt10 sign s = Val (sign * mathInt 10 (d :: ds))).
  { intros sign. unfold parseInt10, s.
    change (String (digitChar d) (string_of_list_ascii (map digitChar ds)))
      with (string_of_list_ascii (map digitChar (d :: ds))).
    now rewrite digitsPrefix_digits by (constructor; assumption). }
  assert (Hgoal : parseInt s = parseInt10 1 s /\
                  parseInt (String "-" s) = parseInt10 (-1) s).
  { unfold s. destruct (Z.eq_dec d 0) as [-> | Hnz].
    - destruct ds as [|d' ds']; [split; reflexivity|].
      inversion Hds; subst.
      cbn [map string_of_list_ascii].
      change (digitChar 0) with "0"%char.
      now apply parseInt_zero_then_digit.
    - now apply parseInt_nonzero_head. }
  destruct Hgoal as [-> ->]. rewrite !Hp. split; f_equal; lia.
Qed.

(** Reading back a printed integer gives the integer. *)
Lemma parseInt_toString n : parseInt (Number_toString n) = Val n.
Proof.
  unfold Number_toString. destruct (Z.ltb_spec n 0) as [Hneg | Hpos].
  - destruct (decimal_shape (- n) ltac:(lia)) as (d & ds & Hd & Hds & -> & Hv).
    destruct (parseInt_digits d ds Hd Hds) as [_ ->]. rewrite Hv. f_equal. lia.
  - destruct (decimal_shape n Hpos) as (d & ds & Hd & Hds & -> & Hv).
    destruct (parseInt_digits d ds Hd Hds) as [-> _]. now rewrite Hv.
Qed.

(** A printed integer is never the empty string. *)
Lemma truthy_toString n : truthy (Number_toString n) = true.
Proof.
  unfold Number_toString. destruct (Z.ltb_spec n 0) as [Hneg | Hpos];
    [reflexivity|].
  now destruct (decimal_shape n Hpos) as (d & ds & _ & _ & -> & _).
Qed.


(** ** Doubles *)

Lemma two_pow_pos (e : Z) : (0 < 2 ^ e)%Q.
Proof. apply Qpower_0_lt. reflexivity. Qed.

Lemma ten_pow_pos (e : Z) : (0 < 10 ^ e)%Q.
Proof. apply Qpower_0_lt. reflexivity. Qed.

Lemma two_pow_Z (e : Z) : 0 <= e -> (2 ^ e == inject_Z (2 ^ e))%Q.
Proof. intros He. now rewrite Zpower_Qpower. Qed.

Lemma ten_pow_Z (e : Z) : 0 <= e -> (10 ^ e == inject_Z (10 ^ e))%Q.
Proof. intros He. now rewrite Zpower_Qpower. Qed.

Lemma pow10_Qpower (e : Z) : (pow10 e == 10 ^ e)%Q.
Proof.
  unfold pow10. destruct (Z.ltb_spec e 0) as [He | He].
  - replace e with (- - e) at 2 by lia.
    rewrite Qpower_opp, ten_pow_Z by lia.
    assert (Hp : 0 < 10 ^ (- e)) by (apply Z.pow_pos_nonneg; lia).
    destruct (10 ^ (- e)) as [|p|p] eqn:E; try lia.
    reflexivity.
  - symmetry. now apply ten_pow_Z.
Qed.

(** A positive rational lies between the powers of [b] that the sizes of
    its numerator and denominator give. *)
Lemma ratio_bounds (b : Q) (q : Q) (ln ld : Z) :
  (1 < b)%Q ->
  (b ^ ln <= inject_Z (Qnum q))%Q -> (inject_Z (Qnum q) < b ^ (ln + 1))%Q ->
  (b ^ ld <= inject_Z (Zpos (Qden q)))%Q ->
  (inject_Z (Zpos (Qden q)) < b ^ (ld + 1))%Q ->
  (b ^ (ln - ld - 1) <= q)%Q /\ (q < b ^ (ln - ld + 1))%Q.
Proof.
  intros Hb Hn1 Hn2 Hd1 Hd2.
  assert (Hb0 : ~ (b == 0)%Q) by lra.
  assert (Hq : (q == inject_Z (Qnum q) / inject_Z (Zpos (Qden q)))%Q).
  { destruct q as [n d]. cbn [Qnum Qden]. apply Qmake_Qdiv. }
  assert (HD : (0 < inject_Z (Zpos (Qden q)))%Q) by reflexivity.
  set (N := inject_Z (Qnum q)) in *. set (D := inject_Z (Zpos (Qden q))) in *.
  assert (HA : (0 < b ^ ln)%Q) by (apply Qpower_0_lt; lra).
  assert (HB : (0 < b ^ ld)%Q) by (apply Qpower_0_lt; lra).
  assert (E1 : (b ^ (ln + 1) == b * b ^ ln)%Q)
    by (rewrite Qpower_plus by exact Hb0; rewrite Qpower_1_r; ring).
  assert (E2 : (b ^ (ld + 1) == b * b ^ ld)%Q)
    by (rewrite Qpower_plus by exact Hb0; rewrite Qpower_1_r; ring).
  assert (E3 : (b ^ (ln - ld - 1) == b ^ ln / (b * b ^ ld))%Q).
  { replace (ln - ld - 1) with (ln - (ld + 1)) by lia.
    rewrite Qpower_minus by exact Hb0. now rewrite E2. }
  assert (E4 : (b ^ (ln - ld + 1) == b * b ^ ln / b ^ ld)%Q).
  { replace (ln - ld + 1) with (ln + 1 - ld) by lia.
    rewrite Qpower_minus by exact Hb0. now rewrite E1. }
  rewrite E1 in Hn2. rewrite E2 in Hd2. rewrite E3, E4, Hq.
  set (A := (b ^ ln)%Q) in *. set (B := (b ^ ld)%Q) in *.
  split.
  - apply Qle_shift_div_l; [exact HD|].
    assert (HbB : (0 < b * B)%Q) by nra.
    assert (H : (A / (b * B) * D == A * D / (b * B))%Q) by (field; lra).
    rewrite H. apply Qle_shift_div_r; [exact HbB|]. nra.
  - apply Qlt_shift_div_r; [exact HD|].
    assert (H : (b * A / B * D == b * A * D / B)%Q) by (field; lra).
    rewrite H. apply Qlt_shift_div_l; [exact HB|]. nra.
Qed.

Lemma log2_Qbounds (n : Z) :
  0 < n ->
  (2 ^ Z.log2 n <= inject_Z n)%Q /\ (inject_Z n < 2 ^ (Z.log2 n + 1))%Q.
Proof.
  intros Hn. pose proof (Z.log2_spec n Hn) as [H1 H2].
  pose proof (Z.log2_nonneg n) as H0.
  rewrite !two_pow_Z by lia. rewrite <- Zle_Qle, <- Zlt_Qlt.
  split; [exact H1|]. now rewrite <- Z.add_1_r in H2.
Qed.

(** [ilog2] is the floor of the binary logarithm. *)
Lemma ilog2_spec (q : Q) :
  (0 < q)%Q -> (2 ^ ilog2 q <= q)%Q /\ (q < 2 ^ (ilog2 q + 1))%Q.
Proof.
  intros Hq.
  assert (Hn : 0 < Qnum q).
  { destruct q as [n d]. unfold Qlt in Hq. cbn in *. lia. }
  destruct (log2_Qbounds (Qnum q) Hn) as [Hn1 Hn2].
  destruct (log2_Qbounds (Zpos (Qden q)) ltac:(lia)) as [Hd1 Hd2].
  destruct (ratio_bounds 2 q _ _ ltac:(reflexivity) Hn1 Hn2 Hd1 Hd2) as [Hlo Hhi].
  unfold ilog2.
  set (t := Z.log2 (Qnum q) - Z.log2 (Zpos (Qden q))) in *.
  destruct (Qle_bool (2 ^ t) q) eqn:E.
  - apply Qle_bool_iff in E. split; [exact E | exact Hhi].
  - split; [exact Hlo|].
    replace (t - 1 + 1) with t by lia.
    apply Qnot_le_lt. intros H. apply Qle_bool_iff in H. congruence.
Qed.

Lemma roundTiesToEven_integer (q : Q) (z : Z) :
  (q == inject_Z z)%Q -> roundTiesToEven q = z.
Proof.
  intros Hq. unfold roundTiesToEven.
  rewrite (Qfloor_comp q (inject_Z z) Hq), Qfloor_Z.
  assert (H : (q - inject_Z z < 1 # 2)%Q) by (rewrite Hq; lra).
  destruct (Qcompare_spec (q - inject_Z z) (1 # 2)) as [H' | H' | H'];
    [lra | reflexivity | lra].
Qed.

Lemma roundToDouble_comp (q q' : Q) :
  (q == q')%Q -> roundToDouble q = roundToDouble q'.
Proof. intros H. unfold roundToDouble. now rewrite (Qred_complete q q' H). Qed.

Lemma Qred_idem (q : Q) : Qred (Qred q) = Qred q.
Proof. apply Qred_complete, Qred_correct. Qed.

(** The value that rounding returns is in lowest terms. *)
Lemma roundToDouble_canonical (q y : Q) :
  roundToDouble q = Val y -> Qred y = y.
Proof.
  unfold roundToDouble.
  destruct (Qeq_bool (Qred q) 0); [intros [= <-]; reflexivity|].
  destruct (Qle_bool _ _); [discriminate|].
  intros [= <-]. apply Qred_idem.
Qed.

Lemma Qabs_opp_eq (q : Q) : Qabs (- q) = Qabs q.
Proof. destruct q as [n d]. unfold Qabs, Qopp. cbn. now rewrite Z.abs_opp. Qed.

Lemma Qopp_opp_eq (q : Q) : (- - q)%Q = q.
Proof. destruct q as [n d]. unfold Qopp. cbn. now rewrite Z.opp_involutive. Qed.

(** Rounding is symmetric. *)
Lemma roundToDouble_opp (q y : Q) :
  roundToDouble q = Val y -> roundToDouble (- q) = Val (- y)%Q.
Proof.
  unfold roundToDouble. rewrite Qred_opp.
  set (r := Qred q).
  assert (Hz : Qeq_bool (- r) 0 = Qeq_bool r 0).
  { destruct r as [n d]. unfold Qeq_bool, Qopp. cbn.
    destruct n; reflexivity. }
  rewrite Hz. destruct (Qeq_bool r 0) eqn:E; [intros [= <-]; reflexivity|].
  rewrite Qabs_opp_eq.
  destruct (Qle_bool _ _); [discriminate|].
  assert (Hs : (Qnum (- r) <? 0) = negb (Qnum r <? 0)).
  { destruct r as [n d]. unfold Qeq_bool in E. cbn in *.
    destruct n; try reflexivity. discriminate E. }
  rewrite Hs. intros [= <-].
  destruct (Qnum r <? 0); cbn [negb]; f_equal.
  - rewrite Qred_opp. now rewrite Qopp_opp_eq.
  - now rewrite Qred_opp.
Qed.

(** A double is its own Number value. *)
Lemma roundToDouble_double (x : Q) (m e : Z) :
  (x == double m e)%Q -> Z.abs m < 2 ^ 53 -> -1074 <= e <= 971 ->
  roundToDouble x = Val (Qred x).
Proof.
  intros Hx Hm He. unfold roundToDouble.
  destruct (Qeq_bool (Qred x) 0) eqn:Ez.
  - apply Qeq_bool_iff in Ez. f_equal.
    change 0%Q with (Qred 0). apply Qred_complete.
    now rewrite <- Ez, Qred_correct.
  - assert (Hnz : ~ (Qred x == 0)%Q).
    { intros H. apply Qeq_bool_iff in H. congruence. }
    set (r := Qred x) in *.
    assert (Hr : (r == double m e)%Q) by (unfold r; now rewrite Qred_correct).
    assert (Ha : (Qabs r == inject_Z (Z.abs m) * 2 ^ e)%Q).
    { rewrite Hr. unfold double. rewrite Qabs_Qmult.
      rewrite (Qabs_pos (2 ^ e)) by (apply Qlt_le_weak, two_pow_pos).
      apply Qmult_comp; [|reflexivity].
      unfold Qabs, inject_Z. reflexivity. }
    assert (Hm0 : 0 < Z.abs m).
    { destruct (Z.eq_dec m 0) as [-> | Hm0]; [|lia].
      exfalso. apply Hnz. rewrite Hr. unfold double. ring. }
    assert (Hapos : (0 < Qabs r)%Q).
    { rewrite Ha. apply Qmult_lt_0_compat; [|apply two_pow_pos].
      change 0%Q with (inject_Z 0). now rewrite <- Zlt_Qlt. }
    destruct (ilog2_spec (Qabs r) Hapos) as [HL _].
    set (L := ilog2 (Qabs r)) in *.
    assert (HLe : L <= 52 + e).
    { assert (H : (2 ^ L < 2 ^ (53 + e))%Q).
      { eapply Qle_lt_trans; [exact HL|]. rewrite Ha.
        rewrite Qpower_plus by (intros H; discriminate H).
        apply Qmult_lt_compat_r; [apply two_pow_pos|].
        rewrite two_pow_Z by lia. now rewrite <- Zlt_Qlt. }
      apply Qpower_lt_compat_l_inv in H; [lia | reflexivity]. }
    set (p := Z.max L (-1022) - 52).
    assert (Hp : p <= e) by lia.
    assert (Hdiv : (Qabs r / 2 ^ p == inject_Z (Z.abs m * 2 ^ (e - p)))%Q).
    { rewrite Ha, inject_Z_mult, <- two_pow_Z by lia.
      rewrite Qpower_minus by (intros H; discriminate H).
      field. pose proof (two_pow_pos p). lra. }
    rewrite (roundTiesToEven_integer _ _ Hdiv).
    assert (Hv : (inject_Z (Z.abs m * 2 ^ (e - p)) * 2 ^ p == Qabs r)%Q).
    { rewrite <- Hdiv. field. pose proof (two_pow_pos p). lra. }
    assert (Hlt : Qle_bool (2 ^ 1024)
                    (inject_Z (Z.abs m * 2 ^ (e - p)) * 2 ^ p) = false).
    { destruct (Qle_bool _ _) eqn:E; [|reflexivity].
      apply Qle_bool_iff in E. rewrite Hv, Ha in E. exfalso.
      assert (H : (inject_Z (Z.abs m) * 2 ^ e < 2 ^ 53 * 2 ^ 971)%Q).
      { apply Qle_lt_trans with (inject_Z (Z.abs m) * 2 ^ 971)%Q.
        - apply Qmult_le_l; [change 0%Q with (inject_Z 0); now rewrite <- Zlt_Qlt|].
          apply Qpower_le_compat_l; [lia | discriminate].
        - apply Qmult_lt_compat_r; [apply two_pow_pos|].
          rewrite (two_pow_Z 53) by lia. now rewrite <- Zlt_Qlt. }
      rewrite <- Qpower_plus in H by (intros H'; discriminate H').
      change (53 + 971) with 1024 in H. lra. }
    rewrite Hlt. f_equal.
    transitivity (Qred r); [|apply Qred_idem]. apply Qred_complete.
    destruct (Z.ltb_spec (Qnum r) 0) as [Hneg | Hpos].
    + rewrite Hv. rewrite Qabs_neg; [ring|].
      destruct r as [n d]. unfold Qle. cbn in *. lia.
    + rewrite Hv. apply Qabs_pos.
      destruct r as [n d]. unfold Qle. cbn in *. lia.
Qed.

(** ** Digits *)

Lemma decimalDigits_isDigit (n : Z) : Forall isDigit (decimalDigits n).
Proof. unfold decimalDigits. apply Forall_rev, digitsOf_isDigit. Qed.

Lemma decimalDigits_value (n : Z) : 0 <= n -> mathInt 10 (decimalDigits n) = n.
Proof.
  intros Hn. unfold decimalDigits. rewrite mathInt_rev.
  apply valueLE_digitsOf, log2_fuel, Hn.
Qed.

Lemma decimal_digitString (n : Z) : decimal n = digitString (decimalDigits n).
Proof. reflexivity. Qed.

Lemma length_digitsOf (fuel : nat) :
  forall n, 0 < n < 2 ^ Z.of_nat fuel ->
  10 ^ (Z.of_nat (length (digitsOf fuel n)) - 1) <= n
  < 10 ^ Z.of_nat (length (digitsOf fuel n)).
Proof.
  induction fuel as [|f IH]; intros n Hn.
  - simpl in Hn. lia.
  - cbn [digitsOf]. destruct (Z.eqb_spec (n / 10) 0) as [Hq | Hq].
    + cbn. pose proof (Z.div_mod n 10 ltac:(lia)).
      pose proof (Z.mod_pos_bound n 10 ltac:(lia)). lia.
    + assert (Hq' : 0 < n / 10 < 2 ^ Z.of_nat f).
      { rewrite Nat2Z.inj_succ, Z.pow_succ_r in Hn by lia.
        split.
        - pose proof (Z.div_pos n 10 ltac:(lia) ltac:(lia)). lia.
        - apply Z.div_lt_upper_bound; [lia|].
          pose proof (Z.pow_pos_nonneg 2 (Z.of_nat f) ltac:(lia) ltac:(lia)). lia. }
      specialize (IH _ Hq').
      cbn [length].
      remember (length (digitsOf f (n / 10))) as l eqn:El. clear El. rewrite Nat2Z.inj_succ.
      replace (Z.succ (Z.of_nat l) - 1) with (Z.succ (Z.of_nat l - 1)) by lia.
      assert (Hl : 0 <= Z.of_nat l - 1).
      { destruct l; [|lia]. cbn in IH. lia. }
      rewrite !Z.pow_succ_r by lia.
      pose proof (Z.div_mod n 10 ltac:(lia)).
      pose proof (Z.mod_pos_bound n 10 ltac:(lia)). lia.
Qed.

Lemma numDigits_spec (n : Z) :
  0 < n -> 10 ^ (numDigits n - 1) <= n < 10 ^ numDigits n.
Proof.
  intros Hn. unfold numDigits, decimalDigits. rewrite length_rev.
  apply length_digitsOf. pose proof (log2_fuel n ltac:(lia)). lia.
Qed.

Lemma numDigits_pos (n : Z) : 1 <= numDigits n.
Proof.
  unfold numDigits, decimalDigits. rewrite length_rev. cbn [digitsOf length]. lia.
Qed.

Lemma numDigits_unique (n k : Z) :
  10 ^ (k - 1) <= n < 10 ^ k -> 1 <= k -> numDigits n = k.
Proof.
  intros Hn Hk.
  assert (Hpos : 0 < n).
  { pose proof (Z.pow_pos_nonneg 10 (k - 1) ltac:(lia) ltac:(lia)). lia. }
  pose proof (numDigits_spec n Hpos) as Hs.
  pose proof (numDigits_pos n) as Hp.
  destruct (Z.lt_trichotomy (numDigits n) k) as [H | [H | H]]; [|exact H|].
  - exfalso.
    assert (10 ^ numDigits n <= 10 ^ (k - 1)) by (apply Z.pow_le_mono_r; lia).
    lia.
  - exfalso.
    assert (10 ^ k <= 10 ^ (numDigits n - 1)) by (apply Z.pow_le_mono_r; lia).
    lia.
Qed.

Lemma numDigits_Qbounds (n : Z) :
  0 < n ->
  (10 ^ (numDigits n - 1) <= inject_Z n)%Q /\
  (inject_Z n < 10 ^ (numDigits n - 1 + 1))%Q.
Proof.
  intros Hn. pose proof (numDigits_spec n Hn) as [H1 H2].
  pose proof (numDigits_pos n) as H0.
  rewrite !ten_pow_Z by lia. rewrite <- Zle_Qle, <- Zlt_Qlt.
  split; [exact H1|]. now replace (numDigits n - 1 + 1) with (numDigits n) by lia.
Qed.

(** [decade] is one more than the floor of the decimal logarithm. *)
Lemma decade_spec (q : Q) :
  (0 < q)%Q -> (10 ^ (decade q - 1) <= q)%Q /\ (q < 10 ^ decade q)%Q.
Proof.
  intros Hq.
  assert (Hn : 0 < Qnum q).
  { destruct q as [n d]. unfold Qlt in Hq. cbn in *. lia. }
  destruct (numDigits_Qbounds (Qnum q) Hn) as [Hn1 Hn2].
  destruct (numDigits_Qbounds (Zpos (Qden q)) ltac:(lia)) as [Hd1 Hd2].
  destruct (ratio_bounds 10 q _ _ ltac:(reflexivity) Hn1 Hn2 Hd1 Hd2)
    as [Hlo Hhi].
  unfold decade.
  set (t := numDigits (Qnum q) - numDigits (Zpos (Qden q))) in *.
  replace (numDigits (Qnum q) - 1 - (numDigits (Z.pos (Qden q)) - 1) - 1)
    with (t - 1) in Hlo by lia.
  replace (numDigits (Qnum q) - 1 - (numDigits (Z.pos (Qden q)) - 1) + 1)
    with (t + 1) in Hhi by lia.
  destruct (Qle_bool (10 ^ t) q) eqn:E.
  - apply Qle_bool_iff in E. split; [|exact Hhi].
    now replace (t + 1 - 1) with t by lia.
  - split; [exact Hlo|].
    apply Qnot_le_lt. intros H. apply Qle_bool_iff in H. congruence.
Qed.

(** ** Reading a printed decimal *)

Lemma append_empty (s : string) : s ++ "" = s.
Proof.
  induction s as [|c s IH]; [reflexivity|].
  change (String c s ++ "") with (String c (s ++ "")). now rewrite IH.
Qed.

Lemma digitString_app (a b : list Z) :
  digitString (a ++ b) = digitString a ++ digitString b.
Proof.
  unfold digitString. induction a as [|d a IH]; [reflexivity|].
  cbn. now rewrite IH.
Qed.

Lemma digitsPrefix_head (ds : list Z) (t : string) :
  Forall isDigit ds ->
  digitsPrefix 10 (digitString ds ++ t) = (ds ++ digitsPrefix 10 t)%list.
Proof.
  induction 1 as [|d ds Hd _ IH]; [reflexivity|].
  change (digitString (d :: ds) ++ t)
    with (String (digitChar d) (digitString ds ++ t)).
  cbn [digitsPrefix]. rewrite (digitValue_digitChar d Hd).
  unfold isDigit in Hd. destruct (Z.ltb_spec d 10); [|lia].
  now rewrite IH.
Qed.

Lemma dropDigits_head (ds : list Z) (t : string) :
  Forall isDigit ds -> dropDigits (digitString ds ++ t) = dropDigits t.
Proof.
  induction 1 as [|d ds Hd _ IH]; [reflexivity|].
  change (digitString (d :: ds) ++ t)
    with (String (digitChar d) (digitString ds ++ t)).
  cbn [dropDigits]. rewrite (digitValue_digitChar d Hd).
  unfold isDigit in Hd. destruct (Z.ltb_spec d 10); [|lia].
  exact IH.
Qed.

Lemma fold_mathInt (ds : list Z) (acc : Z) :
  fold_left (fun a d => a * 10 + d) ds acc
  = acc * 10 ^ Z.of_nat (length ds) + mathInt 10 ds.
Proof.
  unfold mathInt. revert acc. induction ds as [|d ds IH]; intros acc.
  - cbn. lia.
  - cbn [fold_left length]. rewrite IH, (IH (0 * 10 + d)).
    rewrite Nat2Z.inj_succ, Z.pow_succ_r by lia. lia.
Qed.

Lemma mathInt_append (a b : list Z) :
  mathInt 10 (a ++ b) = mathInt 10 a * 10 ^ Z.of_nat (length b) + mathInt 10 b.
Proof. unfold mathInt at 1. rewrite fold_left_app. apply fold_mathInt. Qed.

Lemma mathInt_zeros (j : nat) : mathInt 10 (repeat 0 j) = 0.
Proof.
  induction j as [|j IH]; [reflexivity|].
  change (repeat 0 (S j)) with ([0] ++ repeat 0 j)%list.
  rewrite mathInt_append, IH. cbn. lia.
Qed.

Lemma zeros_isDigit (j : nat) : Forall isDigit (repeat 0 j).
Proof. induction j; constructor; [unfold isDigit; lia | assumption]. Qed.

(** A string that begins with a digit carries no white space, sign or
    [Infinity] in front. *)
Lemma parseFloat_digit_head (d : Z) (rest : string) :
  isDigit d ->
  parseFloat (String (digitChar d) rest)
  = strDecimal false (String (digitChar d) rest) /\
  parseFloat (String "-" (String (digitChar d) rest))
  = strDecimal true (String (digitChar d) rest).
Proof. intros Hd. digit_cases d Hd; split; reflexivity. Qed.

(** The exponent is read back. *)
Lemma exponentString_read (e : Z) :
  exponentPart (exponentString e) = e /\
  digitsPrefix 10 (exponentString e) = [] /\
  dropDigits (exponentString e) = exponentString e /\
  exists r, exponentString e = String "e" r.
Proof.
  unfold exponentString.
  destruct (decimal_shape (Z.abs e) (Z.abs_nonneg e))
    as (d & ds & Hd & Hds & Hs & Hv).
  assert (Hp : digitsPrefix 10 (decimal (Z.abs e)) = d :: ds).
  { rewrite Hs.
    change (String (digitChar d) (string_of_list_ascii (map digitChar ds)))
      with (string_of_list_ascii (map digitChar (d :: ds))).
    apply digitsPrefix_digits. now constructor. }
  destruct (Z.ltb_spec e 0) as [He | He].
  - repeat split; try reflexivity; [|eexists; reflexivity].
    change (exponentPart ("e-" ++ decimal (Z.abs e)))
      with (match digitsPrefix 10 (decimal (Z.abs e)) with
            | [] => 0
            | ds => -1 * mathInt 10 ds
            end).
    rewrite Hp, Hv. lia.
  - repeat split; try reflexivity; [|eexists; reflexivity].
    change (exponentPart ("e+" ++ decimal (Z.abs e)))
      with (match digitsPrefix 10 (decimal (Z.abs e)) with
            | [] => 0
            | ds => 1 * mathInt 10 ds
            end).
    rewrite Hp, Hv. lia.
Qed.

Lemma tail_read (t : string) (e : Z) :
  tail t e ->
  exponentPart t = e /\ digitsPrefix 10 t = [] /\ dropDigits t = t /\
  (t = "" \/ exists r, t = String "e" r).
Proof.
  intros [|e']; [repeat split; auto|].
  destruct (exponentString_read e') as (H1 & H2 & H3 & H4). auto.
Qed.

Lemma strDecimal_integer (negative : bool) (int : list Z) (t : string) (e : Z) :
  Forall isDigit int -> int <> [] -> tail t e ->
  strDecimal negative (digitString int ++ t)
  = roundToDouble
      (let v := ((inject_Z (mathInt 10 int) + inject_Z 0 * pow10 (- 0))
                 * pow10 e)%Q in
       if negative then (- v)%Q else v).
Proof.
  intros Hint Hne Ht.
  destruct (tail_read t e Ht) as (He & Hp & Hd & Hs).
  unfold strDecimal.
  rewrite digitsPrefix_head, dropDigits_head, Hp, Hd, app_nil_r by assumption.
  destruct int as [|d int]; [congruence|].
  destruct Hs as [-> | [r ->]]; cbn in He; now rewrite <- ?He.
Qed.

Lemma strDecimal_fraction (negative : bool) (int frac : list Z) (t : string)
    (e : Z) :
  Forall isDigit int -> Forall isDigit frac -> int <> [] -> tail t e ->
  strDecimal negative (digitString int ++ "." ++ digitString frac ++ t)
  = roundToDouble
      (let v := ((inject_Z (mathInt 10 int)
                  + inject_Z (mathInt 10 frac)
                    * pow10 (- Z.of_nat (length frac)))
                 * pow10 e)%Q in
       if negative then (- v)%Q else v).
Proof.
  intros Hint Hfrac Hne Ht.
  destruct (tail_read t e Ht) as (He & Hp & Hd & Hs).
  unfold strDecimal.
  rewrite digitsPrefix_head, dropDigits_head by assumption.
  change (digitsPrefix 10 ("." ++ digitString frac ++ t)) with (@nil Z).
  change (dropDigits ("." ++ digitString frac ++ t))
    with (String "." (digitString frac ++ t)).
  cbv iota beta.
  rewrite digitsPrefix_head, dropDigits_head, Hp, Hd, !app_nil_r by assumption.
  rewrite He.
  destruct int as [|d int]; [congruence|]. reflexivity.
Qed.

Lemma ten_pow_opp (j : Z) : (10 ^ (- j) == / 10 ^ j)%Q.
Proof. apply Qpower_opp. Qed.

Lemma ten_pow_nonzero (j : Z) : ~ (10 ^ j == 0)%Q.
Proof. pose proof (ten_pow_pos j). lra. Qed.

(** The printed form of the digits [ds] with the point after [n] of them
    begins with a digit and reads back as the decimal it shows. *)
Lemma formatDecimal_read (negative : bool) (n : Z) (ds : list Z) :
  Forall isDigit ds -> ds <> [] ->
  (exists d rest, isDigit d /\ formatDecimal n ds = String (digitChar d) rest) /\
  exists v,
    (v == inject_Z (mathInt 10 ds) * 10 ^ (n - Z.of_nat (length ds)))%Q /\
    strDecimal negative (formatDecimal n ds)
    = roundToDouble (if negative then (- v)%Q else v).
Proof.
  intros Hds Hne. unfold formatDecimal.
  set (k := Z.of_nat (length ds)).
  assert (Hk : 1 <= k) by (destruct ds; [congruence | cbn in k; lia]).
  destruct ((k <=? n) && (n <=? 21)) eqn:E1.
  { (* the digits, then zeros *)
    apply andb_true_iff in E1 as [Hkn Hn]. apply Z.leb_le in Hkn, Hn.
    split.
    - destruct ds as [|d ds']; [congruence|]. inversion Hds; subst.
      exists d. eexists. split; [assumption | reflexivity].
    - eexists. split; [|rewrite <- (append_empty (digitString _));
                         apply strDecimal_integer;
                         [apply Forall_app; split; [assumption | apply zeros_isDigit]
                         | destruct ds; [congruence | discriminate]
                         | constructor]].
      cbv zeta. rewrite mathInt_append, mathInt_zeros, repeat_length.
      rewrite Z2Nat.id by lia. fold k.
      rewrite !pow10_Qpower. change (- 0) with 0.
      rewrite Z.add_0_r, inject_Z_mult, <- ten_pow_Z by lia.
      rewrite Qpower_0_r. ring. }
  destruct ((0 <? n) && (n <=? 21)) eqn:E2.
  { (* the point inside the digits *)
    apply andb_true_iff in E2 as [Hn0 Hn]. apply Z.ltb_lt in Hn0.
    apply Z.leb_le in Hn.
    assert (Hnk : n < k).
    { apply andb_false_iff in E1 as [H | H];
        [apply Z.leb_gt in H; lia | apply Z.leb_gt in H; lia]. }
    set (a := take (Z.to_nat n) ds). set (b := drop (Z.to_nat n) ds).
    assert (Hab : ds = (a ++ b)%list) by (symmetry; apply take_drop).
    assert (Hla : length a = Z.to_nat n) by (unfold a; rewrite length_take; lia).
    assert (Hlb : Z.of_nat (length b) = k - n)
      by (unfold b; rewrite length_drop; lia).
    assert (Ha : Forall isDigit a) by (unfold a; now apply Forall_take).
    assert (Hb : Forall isDigit b) by (unfold b; now apply Forall_drop).
    assert (Hane : a <> []) by (intros H; rewrite H in Hla; cbn in Hla; lia).
    clearbody a b. split.
    - destruct a as [|d a']; [congruence|]. inversion Ha; subst.
      exists d. eexists. split; [assumption | reflexivity].
    - eexists. split; [|rewrite <- (append_empty (digitString b));
                         apply strDecimal_fraction; [assumption .. | constructor]].
      cbv zeta. rewrite Hab, mathInt_append, Hlb.
      rewrite !pow10_Qpower, Qpower_0_r.
      rewrite inject_Z_plus, inject_Z_mult, <- ten_pow_Z by lia.
      replace (n - k) with (- (k - n)) by lia. rewrite !ten_pow_opp.
      field. apply ten_pow_nonzero. }
  destruct ((-6 <? n) && (n <=? 0)) eqn:E3.
  { (* zeros after the point, then the digits *)
    apply andb_true_iff in E3 as [_ Hn]. apply Z.leb_le in Hn.
    split; [exists 0; eexists; split; [unfold isDigit; lia | reflexivity]|].
    eexists. split;
      [|change ("0." ++ digitString (repeat 0 (Z.to_nat (- n)) ++ ds))
          with (digitString [0] ++ "."
                ++ digitString (repeat 0 (Z.to_nat (- n)) ++ ds));
        rewrite <- (append_empty (digitString (repeat 0 _ ++ ds)));
        apply strDecimal_fraction;
        [repeat constructor; unfold isDigit; lia
        | apply Forall_app; split; [apply zeros_isDigit | assumption]
        | discriminate
        | constructor]].
    cbv zeta. rewrite mathInt_append, mathInt_zeros, length_app, repeat_length.
    rewrite !pow10_Qpower, Qpower_0_r.
    replace (- Z.of_nat (Z.to_nat (- n) + length ds)) with (n - k)
      by (unfold k; lia).
    change (mathInt 10 [0]) with 0. rewrite Z.mul_0_l, Z.add_0_l.
    change (inject_Z 0) with 0%Q. ring. }
  (* scientific notation *)
  destruct ds as [|d [|d' ds']]; [congruence| |].
  - inversion Hds; subst.
    split; [exists d; eexists; split; [assumption | reflexivity]|].
    eexists. split;
      [|apply strDecimal_integer;
        [assumption | discriminate | constructor]].
    cbv zeta. rewrite !pow10_Qpower. change (- 0) with 0.
    rewrite Qpower_0_r. change k with 1. change (inject_Z 0) with 0%Q. ring.
  - inversion Hds as [|? ? Hd Hds']; subst.
    split; [exists d; eexists; split; [assumption | reflexivity]|].
    eexists. split;
      [|apply strDecimal_fraction;
        [constructor; [assumption | constructor] | assumption | discriminate
        | constructor]].
    cbv zeta.
    set (j := Z.of_nat (length (d' :: ds'))).
    replace k with (1 + j) by (unfold k, j; cbn [length]; lia).
    replace (mathInt 10 (d :: d' :: ds'))
      with (mathInt 10 [d] * 10 ^ j + mathInt 10 (d' :: ds'))
      by (symmetry; apply (mathInt_append [d] (d' :: ds'))).
    rewrite !pow10_Qpower.
    rewrite inject_Z_plus, inject_Z_mult, <- ten_pow_Z by (unfold j; lia).
    replace (n - (1 + j)) with (n - 1 + - j) by lia.
    rewrite Qpower_plus by (intros H; discriminate H).
    rewrite !ten_pow_opp. field. apply ten_pow_nonzero.
Qed.

(** ** The shortest decimal *)

Lemma nearest_denotes (x : Q) (n k n' s : Z) :
  nearest x n k = Some (n', s) -> denotes x n' s = true.
Proof.
  unfold nearest. cbn [fst snd].
  destruct (Qceiling (x * 10 ^ (k - n)) =? 10 ^ k); cbn [fst snd];
    (destruct (denotes x n (Qfloor _)) eqn:Elo;
     (destruct (denotes x _ _) eqn:Ehi in |- *; try discriminate));
    try (destruct (_ ?= _)%Q; [destruct (Z.even _)| |]);
    intros [= <- <-]; assumption.
Qed.

Lemma shortest_denotes (fuel : nat) (x : Q) (n : Z) :
  forall k n' s, shortest fuel x n k = Some (n', s) -> denotes x n' s = true.
Proof.
  induction fuel as [|fuel IH]; intros k n' s; [discriminate|].
  cbn [shortest]. destruct (nearest x n k) as [[n1 s1]|] eqn:E.
  - intros [= <- <-]. eapply nearest_denotes, E.
  - apply IH.
Qed.

Lemma shortest_reach (fuel : nat) (x : Q) (n : Z) :
  forall k k', k <= k' < k + Z.of_nat fuel -> nearest x n k' <> None ->
  shortest fuel x n k <> None.
Proof.
  induction fuel as [|fuel IH]; intros k k' Hk Hn; [lia|].
  cbn [shortest]. destruct (nearest x n k) as [r|] eqn:E; [discriminate|].
  apply (IH (k + 1) k'); [|exact Hn].
  destruct (Z.eq_dec k k') as [-> | Hne]; [congruence | lia].
Qed.

Lemma nearest_below (x : Q) (n k : Z) :
  denotes x n (Qfloor (x * 10 ^ (k - n))) = true -> nearest x n k <> None.
Proof.
  intros H. unfold nearest. cbn [fst snd]. rewrite H.
  repeat (match goal with
          | |- context [if ?b then _ else _] => destruct b
          | |- context [match ?c with Eq => _ | Lt => _ | Gt => _ end] =>
              destruct c
          end; cbn [fst snd]);
    discriminate.
Qed.

(** A positive double has an exact decimal expansion, which the search
    meets at the latest. *)
Lemma shortest_total (x : Q) (m e : Z) :
  (x == double m e)%Q -> 0 < m < 2 ^ 53 -> -1074 <= e <= 971 ->
  shortest 1400 x (decade x) 1 <> None.
Proof.
  intros Hx Hm He.
  assert (Hxpos : (0 < x)%Q).
  { rewrite Hx. unfold double. apply Qmult_lt_0_compat; [|apply two_pow_pos].
    change 0%Q with (inject_Z 0). rewrite <- Zlt_Qlt. lia. }
  destruct (decade_spec x Hxpos) as [Hlo Hhi].
  set (n := decade x) in *.
  set (j := Z.max 0 (- e)).
  set (N := m * 2 ^ (e + j) * 5 ^ j).
  assert (Hj : 0 <= j) by lia. assert (Hej : 0 <= e + j) by lia.
  assert (HN : (x * 10 ^ j == inject_Z N)%Q).
  { unfold N. rewrite Hx. unfold double.
    rewrite !inject_Z_mult, <- two_pow_Z by lia.
    assert (H5 : (inject_Z (5 ^ j) == 5 ^ j)%Q)
      by (now rewrite Zpower_Qpower by lia).
    rewrite H5.
    assert (H10 : (10 ^ j == 2 ^ j * 5 ^ j)%Q)
      by (rewrite <- Qmult_power; reflexivity).
    rewrite H10, Qpower_plus by (intros H; discriminate H). ring. }
  assert (HNpos : 0 < N).
  { unfold N. apply Z.mul_pos_pos; [apply Z.mul_pos_pos; [lia|]|];
      apply Z.pow_pos_nonneg; lia. }
  assert (Hx' : (x == inject_Z N * 10 ^ (- j))%Q).
  { rewrite <- HN, ten_pow_opp. field. apply ten_pow_nonzero. }
  (* the expansion has [n + j] digits *)
  assert (Hb1 : (10 ^ (n + j - 1) <= inject_Z N)%Q).
  { rewrite <- HN. replace (n + j - 1) with (n - 1 + j) by lia.
    rewrite Qpower_plus by (intros H; discriminate H).
    apply Qmult_le_compat_r; [exact Hlo | apply Qlt_le_weak, ten_pow_pos]. }
  assert (Hb2 : (inject_Z N < 10 ^ (n + j))%Q).
  { rewrite <- HN. rewrite Qpower_plus by (intros H; discriminate H).
    apply Qmult_lt_compat_r; [apply ten_pow_pos | exact Hhi]. }
  assert (Hk1 : 1 <= n + j).
  { assert (H : (10 ^ 0 < 10 ^ (n + j))%Q).
    { eapply Qle_lt_trans; [|exact Hb2]. rewrite Qpower_0_r.
      change 1%Q with (inject_Z 1). rewrite <- Zle_Qle. lia. }
    apply (Qpower_lt_compat_l_inv 10 0 (n + j)) in H; [lia | reflexivity]. }
  assert (Hnd : numDigits N = n + j).
  { apply numDigits_unique; [|exact Hk1].
    rewrite !ten_pow_Z in Hb1, Hb2 by lia.
    rewrite <- Zle_Qle in Hb1. rewrite <- Zlt_Qlt in Hb2. lia. }
  (* and it is not longer than the bound *)
  assert (Hn309 : n <= 309).
  { assert (H : (10 ^ (n - 1) < 10 ^ 309)%Q).
    { eapply Qle_lt_trans; [exact Hlo|]. rewrite Hx. unfold double.
      apply Qlt_trans with (2 ^ 53 * 2 ^ 971)%Q; [|reflexivity].
      apply Qle_lt_trans with (inject_Z m * 2 ^ 971)%Q.
      - apply Qmult_le_l; [change 0%Q with (inject_Z 0); rewrite <- Zlt_Qlt; lia|].
        apply Qpower_le_compat_l; [lia | discriminate].
      - apply Qmult_lt_compat_r; [apply two_pow_pos|].
        rewrite (two_pow_Z 53) by lia. rewrite <- Zlt_Qlt. lia. }
    apply (Qpower_lt_compat_l_inv 10 (n - 1) 309) in H; [lia | reflexivity]. }
  apply (shortest_reach 1400 x n 1 (n + j)); [lia|].
  apply nearest_below.
  replace (n + j - n) with j by lia.
  rewrite (Qfloor_comp _ _ HN), Qfloor_Z.
  unfold denotes. rewrite Hnd.
  replace (n - (n + j)) with (- j) by lia.
  rewrite <- (roundToDouble_comp _ _ Hx').
  rewrite (roundToDouble_double x m e Hx ltac:(lia) He).
  apply andb_true_iff. split; [now apply Z.ltb_lt|].
  apply Qeq_bool_iff, Qred_correct.
Qed.

Lemma decimalDigits_nonempty (n : Z) : decimalDigits n <> [].
Proof.
  unfold decimalDigits. intros H.
  apply (f_equal (@rev Z)) in H. rewrite rev_involutive in H.
  now apply digitsOf_nonempty in H.
Qed.

(** The printed form of a positive double, with or without a minus sign
    in front, reads back as the double. *)
Lemma parseFloat_toStringPositive (x : Q) (m e : Z) :
  (x == double m e)%Q -> 0 < m < 2 ^ 53 -> -1074 <= e <= 971 ->
  parseFloat (toStringPositive x) = Val (Qred x) /\
  parseFloat ("-" ++ toStringPositive x) = Val (Qred (- x)).
Proof.
  intros Hx Hm He. unfold toStringPositive.
  pose proof (shortest_total x m e Hx Hm He) as Htot.
  destruct (shortest 1400 x (decade x) 1) as [[n s]|] eqn:E; [|congruence].
  clear Htot. apply shortest_denotes in E.
  unfold denotes in E. apply andb_true_iff in E as [Hs E].
  apply Z.ltb_lt in Hs.
  destruct (roundToDouble (inject_Z s * 10 ^ (n - numDigits s))) as [|y|]
    eqn:Er; try discriminate.
  apply Qeq_bool_iff in E.
  assert (Hy : y = Qred x).
  { rewrite <- (roundToDouble_canonical _ _ Er). now apply Qred_complete. }
  pose proof (decimalDigits_isDigit s) as Hds.
  pose proof (decimalDigits_nonempty s) as Hne.
  destruct (formatDecimal_read false n _ Hds Hne)
    as ((d & rest & Hd & Hhead) & v & Hv & Hread).
  destruct (formatDecimal_read true n _ Hds Hne) as (_ & v' & Hv' & Hread').
  rewrite decimalDigits_value in Hv, Hv' by lia.
  fold (numDigits s) in Hv, Hv'.
  destruct (parseFloat_digit_head d rest Hd) as [Hp Hn].
  change ("-" ++ formatDecimal n (decimalDigits s))
    with (String "-" (formatDecimal n (decimalDigits s))).
  rewrite Hhead, Hp, Hn, <- Hhead, Hread, Hread'.
  split.
  - rewrite (roundToDouble_comp _ _ Hv), Er. now f_equal.
  - assert (H : (- v' == - (inject_Z s * 10 ^ (n - numDigits s)))%Q)
      by now rewrite Hv'.
    rewrite (roundToDouble_comp _ _ H), (roundToDouble_opp _ _ Er).
    f_equal. now rewrite Hy, Qred_opp.
Qed.

(** Printing a finite Number and reading the string back gives the
    Number. *)
Lemma parseFloat_toString (q : Q) (m e : Z) :
  (q == double m e)%Q -> Z.abs m < 2 ^ 53 -> -1074 <= e <= 971 ->
  parseFloat (Number_toString_double q) = Val (Qred q).
Proof.
  intros Hq Hm He. unfold Number_toString_double.
  rewrite (roundToDouble_double q m e Hq Hm He).
  assert (Hr : (Qred q == double m e)%Q) by now rewrite Qred_correct.
  destruct (Qeq_bool (Qred q) 0) eqn:Ez.
  - apply Qeq_bool_iff in Ez. rewrite Qred_correct in Ez.
    rewrite (Qred_complete q 0 Ez). reflexivity.
  - assert (Hnz : ~ (Qred q == 0)%Q)
      by (intros H; apply Qeq_bool_iff in H; congruence).
    assert (Hm0 : m <> 0).
    { intros ->. apply Hnz. rewrite Hr. unfold double. ring. }
    assert (Hsign : (Qnum (Qred q) <? 0) = (m <? 0)).
    { assert (H : (Qred q < 0)%Q <-> m < 0).
      { rewrite Hr. unfold double. pose proof (two_pow_pos e) as Hp.
        split; intros H.
        - destruct (Z.ltb_spec m 0) as [|Hge]; [assumption|]. exfalso.
          assert ((0 <= inject_Z m)%Q)
            by (change 0%Q with (inject_Z 0); now rewrite <- Zle_Qle).
          nra.
        - assert ((inject_Z m < 0)%Q)
            by (change 0%Q with (inject_Z 0); now rewrite <- Zlt_Qlt).
          nra. }
      destruct (Qred q) as [a b]. unfold Qlt in H. cbn in *.
      destruct (Z.ltb_spec a 0), (Z.ltb_spec m 0); try reflexivity; lia. }
    rewrite Hsign. destruct (Z.ltb_spec m 0) as [Hneg | Hpos].
    + assert (Hx : (- Qred q == double (- m) e)%Q).
      { rewrite Hr. unfold double. rewrite inject_Z_opp. ring. }
      destruct (parseFloat_toStringPositive (- Qred q) (- m) e Hx
                  ltac:(lia) He) as [_ H].
      rewrite H, Qopp_opp_eq. now rewrite Qred_idem.
    + destruct (parseFloat_toStringPositive (Qred q) m e Hr ltac:(lia) He)
        as [H _].
      rewrite H. now rewrite Qred_idem.
Qed.

Example toString_double_samples :
  Number_toString_double (double 21 (-2)) = "5.25" /\
  Number_toString_double (double 7205759403792794 (-56)) = "0.1" /\
  Number_toString_double (double 5404319552844596 (-54)) = "0.30000000000000004" /\
  Number_toString_double (double 7629394531250000 17) = "1e+21" /\
  Number_toString_double (double 7535204407491802 14) = "123456789012345680000" /\
  Number_toString_double (double 7555786372591432 (-76)) = "1e-7" /\
  Number_toString_double (double 4722366482869645 (-72)) = "0.000001" /\
  Number_toString_double (double (-5) (-1)) = "-2.5" /\
  Number_toString_double (double 1 (-1074)) = "5e-324" /\
  Number_toString_double (double 9007199254740991 971)
  = "1.7976931348623157e+308" /\
  Number_toString_double (double 1700000000000 0) = Number_toString 1700000000000.
Proof. vm_compute. repeat split; reflexivity. Qed.

Example parseFloat_rounds :
  parseFloat "0.1" = Val (Qred (double 7205759403792794 (-56))) /\
  parseFloat "0.1000000000000000055511151231257827" = parseFloat "0.1" /\
  parseFloat "1e400" = Infinity false /\ parseFloat "-1e400" = Infinity true /\
  parseFloat "1e-400" = Val 0%Q /\
  parseFloat "9007199254740993" = Val (9007199254740992 # 1)%Q.
Proof. vm_compute. repeat split; reflexivity. Qed.

Example parseFloat_int : parseFloat "125" = Val (125 # 1)%Q.
Proof. reflexivity. Qed.
Example parseFloat_frac : parseFloat "12.5" = Val (25 # 2)%Q.
Proof. reflexivity. Qed.
Example parseFloat_exp : parseFloat " -1.25e2x" = Val (-125 # 1)%Q.
Proof. reflexivity. Qed.
Example parseFloat_nexp : parseFloat "5e-1" = Val (1 # 2)%Q.
Proof. reflexivity. Qed.
Example parseFloat_dot : parseFloat ".5e" = Val (1 # 2)%Q.
Proof. reflexivity. Qed.
Example parseFloat_bad : parseFloat "abc" = NaN /\ parseFloat "." = NaN /\ parseFloat "-" = NaN.
Proof. repeat split; reflexivity. Qed.
Example parseFloat_inf : parseFloat "-Infinity" = Infinity true.
Proof. reflexivity. Qed.

(** ** The access check *)

Import AccessControl.

Lemma checkAccess_stored (m : gmap string string) (t now : Z) :
  m !! "access_granted" = Some (Number_toString t) ->
  checkAccess (Items m) now = (now - t <? dayInMs).
Proof.
  intros Hm. unfold checkAccess, getItem. rewrite Hm.
  now rewrite truthy_toString, parseInt_toString.
Qed.

(** C1.  With the grant timestamp [t] stored as the gate writes it,
    [checkAccess] at time [now] answers [true] exactly when
    [now - t < 24*60*60*1000]; at a difference of exactly 24 hours it
    answers [false]. *)
Theorem checkAccess_within_24h (m : gmap string string) (t now : Z) :
  m !! "access_granted" = Some (Number_toString t) ->
  (checkAccess (Items m) now = true <-> now - t < 24 * 60 * 60 * 1000) /\
  (now - t = 24 * 60 * 60 * 1000 -> checkAccess (Items m) now = false).
Proof.
  intros Hm. rewrite (checkAccess_stored m t now Hm). unfold dayInMs.
  split.
  - apply Z.ltb_lt.
  - intros ->. reflexivity.
Qed.

Lemma checkAccess_within_24h_witness :
  (checkAccess (Items {["access_granted" := "1700000000000"]}) 1700086399999 = true
   <-> 1700086399999 - 1700000000000 < 24 * 60 * 60 * 1000) /\
  (1700086399999 - 1700000000000 = 24 * 60 * 60 * 1000 ->
   checkAccess (Items {["access_granted" := "1700000000000"]}) 1700086399999 = false).
Proof.
  apply (checkAccess_within_24h {["access_granted" := "1700000000000"]}
           1700000000000 1700086399999).
  reflexivity.
Defined.

Example checkAccess_boundary :
  checkAccess (Items {["access_granted" := "1700000000000"]}) 1700086400000 = false.
Proof. reflexivity. Qed.

Example checkAccess_absent : checkAccess (Items ∅) 1700000000000 = false.
Proof. reflexivity. Qed.

(** ** The mount effect *)

Lemma useEffect_handshake (u : URL) (m : gmap string string) (now : Z) :
  URLSearchParams_get (search u) "from_shortener" = Some "true" ->
  schemeRelative (pathname u) = None ->
  useEffect now (load u (Items m))
  = Normal (mkWorld (Items (<["access_granted" := Number_toString now]> m))
                    (mkURL (origin u) (pathname u) [] "")
                    true false false true [] 0 None).
Proof.
  intros Hq Hp. unfold useEffect, useEffect_body.
  cbn [load location search localStorage].
  rewrite Hq. rewrite bool_decide_eq_true_2 by reflexivity.
  cbn. unfold replaceState_pathname. now rewrite Hp.
Qed.

Example replaceState_samples :
  replaceState_pathname
    (mkURL "https://portal.example" "/watch/7" [("from_shortener", "true")] "top")
  = Normal (mkURL "https://portal.example" "/watch/7" [] "") /\
  replaceState_pathname (mkURL "https://portal.example" "//other.example/x" [] "")
  = Throw SecurityError /\
  replaceState_pathname (mkURL "https://portal.example" "//portal.example/x" [] "")
  = Normal (mkURL "https://portal.example" "/x" [] "") /\
  replaceState_pathname (mkURL "https://portal.example" "//" [] "")
  = Throw SecurityError.
Proof. repeat split; reflexivity. Qed.

(** On a path that names another authority the effect stops at
    [replaceState]: the grant is written, the address is as it was. *)
Lemma useEffect_body_foreign (u : URL) (m : gmap string string) (now : Z)
    (authority path : string) :
  URLSearchParams_get (search u) "from_shortener" = Some "true" ->
  schemeRelative (pathname u) = Some (authority, path) ->
  String.eqb ("//" ++ authority) (afterScheme (origin u)) = false ->
  useEffect_body now (load u (Items m))
  = (mkWorld (Items (<["access_granted" := Number_toString now]> m))
             u true false false true [] 0 None, Some SecurityError).
Proof.
  intros Hq Hp Ha. unfold useEffect_body.
  cbn [load location search localStorage].
  rewrite Hq. rewrite bool_decide_eq_true_2 by reflexivity.
  cbn. unfold replaceState_pathname. now rewrite Hp, Ha.
Qed.

Lemma useEffect_check (u : URL) (ls : Storage) (now : Z) :
  URLSearchParams_get (search u) "from_shortener" <> Some "true" ->
  useEffect now (load u ls)
  = Normal (mkWorld ls u (checkAccess ls now) false false true
                    (if checkAccess ls now then [] else [now + 2000]) 0 None).
Proof.
  intros Hq. unfold useEffect, useEffect_body.
  cbn [load location search localStorage].
  rewrite bool_decide_eq_false_2 by assumption.
  destruct (checkAccess ls now); reflexivity.
Qed.

(** C2, as stated, fails in two ways.  The code tests the first value of
    the parameter: on a query that contains [from_shortener=true] after
    another value of that name the gate ends [Denied], writes nothing and
    leaves the address alone.  And on a page whose path begins with two
    slashes and names another host, [replaceState] throws: the grant is
    written, but the marker stays in the address and the component is taken
    off the page. *)
Lemma marker_present_without_handshake :
  (let u := mkURL "https://portal.example" "/"
              [("from_shortener", "false"); ("from_shortener", "true")] "" in
   In ("from_shortener", "true") (search u) /\
   let w := step VTsx Scenario.home (EMount Scenario.t0) (load u (Items ∅)) in
   render w = Denied /\ localStorage w = Items ∅ /\ location w = u) /\
  (let u := mkURL "https://portal.example" "//other.example/x"
              [("from_shortener", "true")] "" in
   URLSearchParams_get (search u) "from_shortener" = Some "true" /\
   useEffect Scenario.t0 (load u (Items ∅)) = Throw SecurityError /\
   let w := step VTsx Scenario.home (EMount Scenario.t0) (load u (Items ∅)) in
   mounted w = false /\ location w = u /\
   URLSearchParams_get (search (location w)) "from_shortener" = Some "true").
Proof.
  split.
  - cbv zeta. split; [right; left; reflexivity|]. repeat split; reflexivity.
  - cbv zeta. repeat split; reflexivity.
Qed.

(** C2, amended.  Whatever the storage held before, a page whose first
    [from_shortener] parameter is ['true'] and whose path does not begin
    with two slashes ends its mount effect with the grant [now] written,
    the [Granted] view, no timer set, and an address without query; a
    reload of that address at any later time takes the [checkAccess]
    branch, writes nothing, and is granted exactly while the grant is
    younger than 24 hours. *)
Theorem handshake_grants_and_strips (u : URL) (m : gmap string string) (now : Z) :
  URLSearchParams_get (search u) "from_shortener" = Some "true" ->
  schemeRelative (pathname u) = None ->
  exists w,
    useEffect now (load u (Items m)) = Normal w /\
    localStorage w = Items (<["access_granted" := Number_toString now]> m) /\
    render w = Granted /\ timers w = [] /\
    location w = mkURL (origin u) (pathname u) [] "" /\
    URLSearchParams_get (search (location w)) "from_shortener" = None /\
    forall now', exists w',
      useEffect now' (load (location w) (localStorage w)) = Normal w' /\
      localStorage w' = localStorage w /\
      location w' = location w /\
      hasAccess w' = (now' - now <? dayInMs).
Proof.
  intros Hq Hp. eexists. split; [apply useEffect_handshake; [exact Hq | exact Hp]|].
  cbn [localStorage location render isChecking hasAccess timers].
  repeat split; try reflexivity.
  intros now'. eexists. split.
  - apply useEffect_check. cbn. discriminate.
  - cbn [localStorage location hasAccess]. repeat split.
    apply checkAccess_stored. apply lookup_insert_eq.
Qed.

Lemma handshake_grants_and_strips_witness :
  exists w,
    useEffect 1700000000000
      (load (mkURL "https://portal.example" "/" [("from_shortener", "true")] "")
            (Items {["access_granted" := "1600000000000"]})) = Normal w /\
    localStorage w
    = Items (<["access_granted" := Number_toString 1700000000000]>
               {["access_granted" := "1600000000000"]}) /\
    render w = Granted /\ timers w = [] /\
    location w = mkURL "https://portal.example" "/" [] "" /\
    URLSearchParams_get (search (location w)) "from_shortener" = None /\
    forall now', exists w',
      useEffect now' (load (location w) (localStorage w)) = Normal w' /\
      localStorage w' = localStorage w /\
      location w' = location w /\
      hasAccess w' = (now' - 1700000000000 <? dayInMs).
Proof.
  apply (handshake_grants_and_strips
           (mkURL "https://portal.example" "/" [("from_shortener", "true")] "")
           {["access_granted" := "1600000000000"]} 1700000000000).
  - reflexivity.
  - reflexivity.
Defined.

(** ** The redirect flow *)

Lemma URLSearchParams_get_set ps k v :
  URLSearchParams_get (URLSearchParams_set ps k v) k = Some v.
Proof.
  induction ps as [|[k' v'] ps IH]; cbn.
  - now rewrite String.eqb_refl.
  - destruct (String.eqb k' k) eqn:E; cbn.
    + now rewrite String.eqb_refl.
    + now rewrite E.
Qed.

(** The page the return URL leads to grants access when it mounts. *)
Lemma returnUrl_mount_grants (home : URL) (m : gmap string string) (now : Z) :
  schemeRelative (pathname home) = None ->
  exists w, useEffect now (load (returnUrl home) (Items m)) = Normal w /\
            grantedAt now w.
Proof.
  intros Hp. eexists. split.
  - apply useEffect_handshake; [apply URLSearchParams_get_set | exact Hp].
  - split; [reflexivity|]. cbn. now rewrite lookup_insert_eq.
Qed.

Lemma failed_body_props data :
  missing data "shortenedUrl" && missing data "shorturl" = true ->
  data = JNull \/
  (getProp data "shortenedUrl" = Normal None /\ getProp data "shorturl" = Normal None
   /\ exists st, getProp data "status" = Normal st).
Proof.
  unfold missing.
  destruct data; cbn; intros H; try (right; repeat split; eauto; fail); [now left|].
  right.
  destruct (lookupField fields "shortenedUrl"); [discriminate|].
  destruct (lookupField fields "shorturl"); [discriminate|].
  repeat split; eauto.
Qed.

(** In AccessControl.tsx a failed round trip sends the browser to the
    return URL and touches neither the storage nor [hasAccess]. *)
Lemma Tsx_failed_redirects (home : URL) (o : FetchOutcome) (w : World) :
  failed o = true ->
  let w' := Tsx.redirectToShortener home o w in
  href w' = Some (ToURL (returnUrl home)) /\
  localStorage w' = localStorage w /\ hasAccess w' = hasAccess w /\
  isChecking w' = isChecking w.
Proof.
  intros Hf.
  assert (Hs : forall w0, Tsx.redirectToShortener_settle home o w0
                          = finally (Tsx.onError home w0)).
  { intros w0. unfold Tsx.redirectToShortener_settle.
    destruct o as [| |data|data]; try reflexivity;
      (destruct (failed_body_props data Hf) as [-> | (H1 & _ & st & H3)];
        [reflexivity|]);
      unfold Tsx.onResponse; rewrite H3, H1; cbn;
      now rewrite andb_false_r. }
  unfold Tsx.redirectToShortener. rewrite Hs.
  destruct w as [ls loc ha ic ir [] ts n h]; cbn; repeat split; reflexivity.
Qed.

(** In part_002 a failed round trip writes the grant on the spot. *)
Lemma Part002_failed_grants (now : Z) (o : FetchOutcome) (w : World)
    (m : gmap string string) :
  failed o = true ->
  localStorage w = Items m -> mounted w = true -> isChecking w = false ->
  let w' := Part002.redirectToShortener now o w in
  grantedAt now w' /\
  localStorage w' = Items (<["access_granted" := Number_toString now]> m) /\
  href w' = href w.
Proof.
  intros Hf Hls Hm Hc.
  destruct w as [ls loc ha ic ir mo ts n h]; cbn in Hls, Hm, Hc; subst.
  assert (Hs : forall w0, localStorage w0 = Items m ->
             Part002.redirectToShortener_settle now o w0
             = finally (setHasAccess true
                 (setLocalStorage
                    (Items (<["access_granted" := Number_toString now]> m)) w0))).
  { intros w0 Hw0. unfold Part002.redirectToShortener_settle.
    assert (Hg : Part002.grantLocally now w0
                 = Normal (setHasAccess true
                     (setLocalStorage
                        (Items (<["access_granted" := Number_toString now]> m)) w0))).
    { unfold Part002.grantLocally. now rewrite Hw0. }
    destruct o as [| |data|data]; unfold Part002.onError; rewrite ?Hg;
      try reflexivity;
      (destruct (failed_body_props data Hf) as [-> | (H1 & H2 & _)];
        [reflexivity|]);
      unfold Part002.onResponse; rewrite H1, H2; cbn; now rewrite Hg. }
  unfold Part002.redirectToShortener. rewrite Hs by reflexivity.
  cbn. unfold grantedAt. cbn. rewrite lookup_insert_eq. repeat split; reflexivity.
Qed.

Example denied_is_first_visit :
  useEffect Scenario.t0 (load Scenario.portal (Items ∅)) = Normal Scenario.denied.
Proof. reflexivity. Qed.

(** C3, as stated, fails on src/components/AccessControl.tsx: after a
    response with neither URL field the gate is still [Denied] and no grant
    has been written. *)
Lemma tsx_does_not_grant_locally :
  failed (Body Scenario.emptyBody) = true /\
  render Scenario.denied = Denied /\
  let w := Tsx.redirectToShortener Scenario.home (Body Scenario.emptyBody)
             Scenario.denied in
  render w = Denied /\ localStorage w = Items ∅ /\
  ~ grantedAt (Scenario.t0 + 2000) w.
Proof.
  repeat split; try reflexivity.
  intros [H _]. discriminate H.
Qed.

(** C3, amended.  After a round trip that failed (request rejected, body
    not JSON, or neither URL field present), started in the [Denied] view
    with working storage: the part_002 variant has written the grant and
    shows [Granted], without navigating; the AccessControl.tsx variant
    has sent the browser to the return URL, leaving storage and
    [hasAccess] alone, and the page at that URL, its path not beginning
    with two slashes, grants as it mounts. *)
Theorem failed_round_trip_fallbacks
    (home : URL) (now : Z) (o : FetchOutcome) (w : World)
    (m : gmap string string) :
  failed o = true ->
  localStorage w = Items m -> mounted w = true -> isChecking w = false ->
  (grantedAt now (Part002.redirectToShortener now o w) /\
   href (Part002.redirectToShortener now o w) = href w) /\
  (href (Tsx.redirectToShortener home o w) = Some (ToURL (returnUrl home)) /\
   localStorage (Tsx.redirectToShortener home o w) = localStorage w /\
   hasAccess (Tsx.redirectToShortener home o w) = hasAccess w /\
   (schemeRelative (pathname home) = None ->
    forall now' m', exists w',
      useEffect now' (load (returnUrl home) (Items m')) = Normal w' /\
      grantedAt now' w')).
Proof.
  intros Hf Hls Hm Hc. split.
  - destruct (Part002_failed_grants now o w m Hf Hls Hm Hc) as (Hg & _ & Hh).
    now split.
  - destruct (Tsx_failed_redirects home o w Hf) as (Hh & Hl & Ha & _).
    repeat split; try assumption.
    intros Hp now' m'. now apply returnUrl_mount_grants.
Qed.

Lemma failed_round_trip_fallbacks_witness :
  (grantedAt 1700000002000
     (Part002.redirectToShortener 1700000002000 Rejected Scenario.denied) /\
   href (Part002.redirectToShortener 1700000002000 Rejected Scenario.denied)
   = href Scenario.denied) /\
  (href (Tsx.redirectToShortener Scenario.home Rejected Scenario.denied)
   = Some (ToURL (returnUrl Scenario.home)) /\
   localStorage (Tsx.redirectToShortener Scenario.home Rejected Scenario.denied)
   = localStorage Scenario.denied /\
   hasAccess (Tsx.redirectToShortener Scenario.home Rejected Scenario.denied)
   = hasAccess Scenario.denied /\
   forall now' m', exists w',
     useEffect now' (load (returnUrl Scenario.home) (Items m')) = Normal w' /\
     grantedAt now' w').
Proof.
  destruct (failed_round_trip_fallbacks Scenario.home 1700000002000 Rejected
              Scenario.denied ∅ eq_refl eq_refl eq_refl eq_refl)
    as (H1 & H2 & H3 & H4 & H5).
  repeat split; try assumption; try apply H1.
  apply H5. reflexivity.
Defined.

(** With a home page whose path names another host the return page does
    not grant: its effect throws at [replaceState]. *)
Example return_page_on_foreign_path :
  useEffect Scenario.t0
    (load (returnUrl (mkURL "https://mywebsite.com" "//other.example/" [] ""))
          (Items ∅))
  = Throw SecurityError.
Proof. reflexivity. Qed.

(** ** Accepting the shortened URL *)

(** C8, as stated, fails on src/components/AccessControl.tsx: a success
    response carrying the URL under [shorturl] is not accepted; the
    browser is sent to the return URL instead. *)
Lemma tsx_ignores_shorturl :
  carries Scenario.bodyShorturl "shorturl" Scenario.short /\
  let w := Tsx.redirectToShortener Scenario.home (Body Scenario.bodyShorturl)
             Scenario.denied in
  ~ navigatesTo w Scenario.short /\
  href w = Some (ToURL (returnUrl Scenario.home)).
Proof.
  split; [split; [reflexivity | discriminate]|].
  split; [intros H; discriminate H | reflexivity].
Qed.

Lemma toBoolean_carried u : u <> "" -> toBoolean (Some (JString u)) = true.
Proof. destruct u; [congruence | reflexivity]. Qed.

Lemma isSuccess_true st : isSuccess st = true -> st = Some (JString "success").
Proof.
  destruct st as [[| | |s| |]|]; cbn; try discriminate.
  intros H. apply String.eqb_eq in H. now subst.
Qed.

Lemma isSuccess_other st : st <> Some (JString "success") -> isSuccess st = false.
Proof.
  intros H. destruct (isSuccess st) eqn:E; [|reflexivity].
  now apply isSuccess_true in E.
Qed.

(** Whatever the response, the flow of AccessControl.tsx ends at the return
    URL once the browser refuses the value. *)
Lemma Tsx_unnavigable (home : URL) (data : json) (w : World) :
  href (Tsx.redirectToShortener home (Unnavigable data) w)
  = Some (ToURL (returnUrl home)).
Proof.
  unfold Tsx.redirectToShortener, Tsx.redirectToShortener_settle, Tsx.onResponse.
  destruct (getProp data "status") as [st|e]; cbn;
    [destruct (getProp data "shortenedUrl") as [x|e]; cbn;
       [destruct (isSuccess st && toBoolean x); cbn|]|];
    destruct w as [ls loc ha ic ir [] ts n h]; reflexivity.
Qed.

(** The part_002 flow never navigates once the browser refuses the value. *)
Lemma Part002_unnavigable (now : Z) (data : json) (w : World) :
  href (Part002.redirectToShortener now (Unnavigable data) w) = href w.
Proof.
  assert (Hl : forall w0 w1, Part002.grantLocally now w0 = Normal w1 ->
                             href w1 = href w0).
  { intros w0 w1. unfold Part002.grantLocally.
    destruct (setItem (localStorage w0) "access_granted" (Number_toString now));
      cbn; [|discriminate].
    intros [= <-]. destruct w0 as [ls loc ha ic ir [] ts n h]; reflexivity. }
  assert (Hg : forall w0, href (Part002.onError now w0) = href w0).
  { intros w0. unfold Part002.onError.
    destruct (Part002.grantLocally now w0) eqn:E; [|reflexivity].
    now apply Hl. }
  assert (Hr : forall w0,
             href (match Part002.onResponse now false data w0 with
                   | Normal w1 => w1
                   | Throw _ => Part002.onError now w0
                   end) = href w0).
  { intros w0. unfold Part002.onResponse.
    destruct (getProp data "shortenedUrl") as [x|e]; cbn; [|apply Hg].
    destruct (getProp data "shorturl") as [y|e]; cbn; [|apply Hg].
    destruct (toBoolean (orElse x y)); cbn; [apply Hg|].
    destruct (Part002.grantLocally now w0) eqn:E; [now apply Hl | apply Hg]. }
  assert (Hf : forall w0, href (finally w0) = href w0).
  { intros [ls loc ha ic ir [] ts n h]; reflexivity. }
  unfold Part002.redirectToShortener, Part002.redirectToShortener_settle.
  rewrite Hf, Hr.
  destruct w as [ls loc ha ic ir [] ts n h]; reflexivity.
Qed.

(** C8, amended.  Of a response whose URL the browser accepts, the
    part_002 variant navigates to the URL carried under [shortenedUrl],
    or, when that property is falsy, under [shorturl].  The
    AccessControl.tsx variant navigates to the URL only when it is under
    [shortenedUrl] and [status] is ['success']: a response without
    [shortenedUrl], or with any other status, sends the browser to the
    return URL, whatever else it carries.  When the browser refuses the
    value as a URL, AccessControl.tsx goes to the return URL and part_002
    does not navigate at all. *)
Theorem shortened_url_acceptance
    (home : URL) (now : Z) (data : json) (u : string) (w : World) :
  (carries data "shortenedUrl" u \/
   (falsy data "shortenedUrl" /\ carries data "shorturl" u) ->
   navigatesTo (Part002.redirectToShortener now (Body data) w) u /\
   localStorage (Part002.redirectToShortener now (Body data) w) = localStorage w) /\
  (getProp data "status" = Normal (Some (JString "success")) ->
   carries data "shortenedUrl" u ->
   navigatesTo (Tsx.redirectToShortener home (Body data) w) u) /\
  (getProp data "shortenedUrl" = Normal None ->
   href (Tsx.redirectToShortener home (Body data) w)
   = Some (ToURL (returnUrl home))) /\
  (forall st, getProp data "status" = Normal st ->
   st <> Some (JString "success") ->
   href (Tsx.redirectToShortener home (Body data) w)
   = Some (ToURL (returnUrl home))) /\
  href (Tsx.redirectToShortener home (Unnavigable data) w)
  = Some (ToURL (returnUrl home)) /\
  href (Part002.redirectToShortener now (Unnavigable data) w) = href w.
Proof.
  split; [|split; [|split; [|split; [|split]]]].
  - intros H.
    assert (Hr : forall w0, Part002.onResponse now true data w0
                   = Normal (navigate (ToValue (Some (JString u))) w0)).
    { intros w0. unfold Part002.onResponse.
      destruct H as [[H1 Hu] | [(x & Hx & Hfx) [H2 Hu]]].
      - rewrite H1.
        destruct data; cbn in H1 |- *; try discriminate.
        unfold orElse. now rewrite (toBoolean_carried u Hu), (toBoolean_carried u Hu).
      - rewrite Hx, H2. cbn. unfold orElse. rewrite Hfx.
        now rewrite (toBoolean_carried u Hu). }
    unfold Part002.redirectToShortener, Part002.redirectToShortener_settle.
    rewrite Hr. unfold navigatesTo.
    destruct w as [ls loc ha ic ir [] ts n h]; split; reflexivity.
  - intros Hst [H1 Hu].
    unfold Tsx.redirectToShortener, Tsx.redirectToShortener_settle, Tsx.onResponse.
    rewrite Hst, H1. pose proof (toBoolean_carried u Hu) as Ht.
    cbn in Ht |- *. rewrite Ht. unfold navigatesTo.
    destruct w as [ls loc ha ic ir [] ts n h]; reflexivity.
  - intros H1.
    unfold Tsx.redirectToShortener, Tsx.redirectToShortener_settle, Tsx.onResponse.
    destruct data; cbn in H1; try discriminate; cbn;
      try (injection H1 as H1; rewrite H1; cbn; rewrite andb_false_r);
      destruct w as [ls loc ha ic ir [] ts n h]; reflexivity.
  - intros st Hst Hne.
    unfold Tsx.redirectToShortener, Tsx.redirectToShortener_settle, Tsx.onResponse.
    rewrite Hst. cbn. rewrite (isSuccess_other st Hne).
    destruct (getProp data "shortenedUrl") as [x|e]; cbn;
      destruct w as [ls loc ha ic ir [] ts n h]; reflexivity.
  - apply Tsx_unnavigable.
  - apply Part002_unnavigable.
Qed.

Lemma shortened_url_acceptance_witness :
  navigatesTo (Part002.redirectToShortener 1700000002000
                 (Body Scenario.bodyShorturl) Scenario.denied) Scenario.short /\
  navigatesTo (Part002.redirectToShortener 1700000002000
                 (Body Scenario.bodyShortenedUrl) Scenario.denied) Scenario.short /\
  navigatesTo (Tsx.redirectToShortener Scenario.home
                 (Body Scenario.bodyShortenedUrl) Scenario.denied) Scenario.short /\
  href (Tsx.redirectToShortener Scenario.home (Body Scenario.bodyShorturl)
          Scenario.denied) = Some (ToURL (returnUrl Scenario.home)) /\
  href (Tsx.redirectToShortener Scenario.home (Body Scenario.bodyErrorStatus)
          Scenario.denied) = Some (ToURL (returnUrl Scenario.home)).
Proof.
  pose proof (shortened_url_acceptance Scenario.home 1700000002000
                Scenario.bodyShorturl Scenario.short Scenario.denied)
    as (Ha & _ & Hd & _).
  pose proof (shortened_url_acceptance Scenario.home 1700000002000
                Scenario.bodyShortenedUrl Scenario.short Scenario.denied)
    as (Hb & Hc & _).
  pose proof (shortened_url_acceptance Scenario.home 1700000002000
                Scenario.bodyErrorStatus Scenario.short Scenario.denied)
    as (_ & _ & _ & He & _).
  split; [|split; [|split; [|split]]].
  - apply Ha. right. split.
    + exists None. split; reflexivity.
    + split; [reflexivity | discriminate].
  - apply Hb. left. split; [reflexivity | discriminate].
  - apply Hc; [reflexivity|]. split; [reflexivity | discriminate].
  - apply Hd. reflexivity.
  - apply (He (Some (JString "error"))); [reflexivity | discriminate].
Defined.

(** ** The auto-redirect timer *)

(** C4, as stated, fails on both variants: the timer set at mount is still
    pending after the component has unmounted, it fires two seconds after
    the mount, and the flow it starts navigates; in part_002 the same
    happens after a click has ended in a local grant. *)
Lemma stale_redirect_fires :
  let t0 := Scenario.t0 in
  let page := load Scenario.portal (Items ∅) in
  (let w1 := run VTsx Scenario.home [EMount t0; EUnmount] page in
   mounted w1 = false /\ timers w1 = [t0 + 2000] /\
   let w2 := step VTsx Scenario.home (ETimer (t0 + 2000)) w1 in
   inflight w2 = 1%nat /\ timers w2 = [] /\
   navigatesTo
     (step VTsx Scenario.home
        (ESettle (t0 + 2100) (Body Scenario.bodyShortenedUrl)) w2)
     Scenario.short) /\
  (let w1 := run VPart002 Scenario.home
               [EMount t0; EClick; ESettle (t0 + 500) Rejected] page in
   render w1 = Granted /\ timers w1 = [t0 + 2000] /\
   let w2 := step VPart002 Scenario.home (ETimer (t0 + 2000)) w1 in
   inflight w2 = 1%nat /\
   navigatesTo
     (step VPart002 Scenario.home
        (ESettle (t0 + 2100) (Body Scenario.bodyShortenedUrl)) w2)
     Scenario.short).
Proof. cbv zeta. repeat split; reflexivity. Qed.

Lemma timers_finally w : timers (finally w) = timers w.
Proof. destruct w as [ls loc ha ic ir [] ts n h]; reflexivity. Qed.

Lemma timers_begin w : timers (redirectToShortener_begin w) = timers w.
Proof. destruct w as [ls loc ha ic ir [] ts n h]; reflexivity. Qed.

Lemma timers_grantLocally now w w' :
  Part002.grantLocally now w = Normal w' -> timers w' = timers w.
Proof.
  unfold Part002.grantLocally.
  destruct w as [[|m] loc ha ic ir [] ts n h]; cbn; intros H;
    try discriminate; now injection H as <-.
Qed.

Lemma timers_settle v home now o w :
  timers (settle v home now o w) = timers w.
Proof.
  destruct v; cbn [settle].
  - unfold Tsx.redirectToShortener_settle. rewrite timers_finally.
    destruct o as [| |data|data]; try reflexivity;
      unfold Tsx.onResponse;
      (destruct (getProp data "status") as [st|]; [|reflexivity]);
      (destruct (getProp data "shortenedUrl") as [su|]; [|reflexivity]);
      cbn; destruct (isSuccess st && toBoolean su); reflexivity.
  - unfold Part002.redirectToShortener_settle. rewrite timers_finally.
    assert (He : timers (Part002.onError now w) = timers w).
    { unfold Part002.onError.
      destruct (Part002.grantLocally now w) eqn:E; [|reflexivity].
      now apply timers_grantLocally in E. }
    assert (Hr : forall b data,
               timers (match Part002.onResponse now b data w with
                       | Normal w1 => w1
                       | Throw _ => Part002.onError now w
                       end) = timers w).
    { intros b data.
      destruct (Part002.onResponse now b data w) as [w1|] eqn:E; [|exact He].
      unfold Part002.onResponse in E.
      destruct (getProp data "shortenedUrl") as [su|]; [|discriminate].
      destruct (getProp data "shorturl") as [sh|]; [|discriminate].
      cbn in E. destruct (toBoolean (orElse su sh)).
      + destruct b; [|discriminate]. now injection E as <-.
      + now apply timers_grantLocally in E. }
    destruct o as [| |data|data]; try exact He; apply Hr.
Qed.

Lemma takeDue_some now ts t :
  In t ts -> t <= now ->
  exists ts', takeDue now ts = Some ts' /\ S (length ts') = length ts.
Proof.
  induction ts as [|x ts IH]; intros Hin Hle; [destruct Hin|].
  cbn [takeDue]. destruct (Z.leb_spec x now) as [Hx | Hx].
  - eexists; split; reflexivity.
  - destruct Hin as [-> | Hin]; [lia|].
    destruct (IH Hin Hle) as (ts' & -> & Hlen).
    eexists; split; [reflexivity|]. cbn. now rewrite Hlen.
Qed.

(** C4, amended.  The mount effect sets the timer exactly when it ends
    denied.  No cleanup exists: unmounting, a click, a settled round trip
    and a further mount effect keep every pending timer.  A pending timer
    whose time has come fires and starts the redirect flow, whether or not
    the component is still mounted or access has been granted since. *)
Theorem auto_redirect_timer_is_never_cleared (v : variant) (home : URL) :
  (forall u ls now w,
     useEffect now (load u ls) = Normal w ->
     timers w = if hasAccess w then [] else [now + 2000]) /\
  (forall e w,
     (forall now, e <> ETimer now) ->
     exists ts, timers (step v home e w) = (timers w ++ ts)%list) /\
  (forall now w t,
     In t (timers w) -> t <= now ->
     inflight (step v home (ETimer now) w) = S (inflight w) /\
     S (length (timers (step v home (ETimer now) w))) = length (timers w)).
Proof.
  split; [|split].
  - intros u ls now w H.
    destruct (decide (URLSearchParams_get (search u) "from_shortener" = Some "true"))
      as [Hq | Hq].
    + unfold useEffect, useEffect_body in H.
      cbn [load location search localStorage] in H.
      rewrite Hq, bool_decide_eq_true_2 in H by reflexivity.
      destruct ls as [|m]; [discriminate H|]. cbn in H.
      destruct (replaceState_pathname u); [|discriminate H].
      now injection H as <-.
    + rewrite (useEffect_check u ls now Hq) in H. injection H as <-.
      cbn. destruct (checkAccess ls now); reflexivity.
  - intros e w Hne. destruct e as [now | | | now | now o]; cbn [step].
    + unfold useEffect_body.
      destruct (bool_decide _).
      * destruct w as [[|m] loc ha ic ir [] ts n h]; cbn;
          try destruct (replaceState_pathname loc);
          exists []; now rewrite app_nil_r.
      * destruct (checkAccess (localStorage w) now);
          destruct w as [ls loc ha ic ir [] ts n h]; cbn;
          first [ exists []; now rewrite app_nil_r | eexists; reflexivity ].
    + exists []. now rewrite app_nil_r.
    + exists []. rewrite app_nil_r.
      destruct (buttonEnabled w); [apply timers_begin | reflexivity].
    + now contradiction (Hne now).
    + exists []. rewrite app_nil_r.
      destruct (inflight w); [reflexivity | apply timers_settle].
  - intros now w t Hin Hle. cbn [step].
    destruct (takeDue_some now (timers w) t Hin Hle) as (ts' & -> & Hlen).
    rewrite timers_begin.
    destruct w as [ls loc ha ic ir [] ts n h]; cbn in *; now split.
Qed.

Lemma auto_redirect_timer_is_never_cleared_witness :
  timers Scenario.denied = [Scenario.t0 + 2000] /\
  (exists ts, timers (step VTsx Scenario.home EUnmount Scenario.denied)
              = (timers Scenario.denied ++ ts)%list) /\
  inflight (step VTsx Scenario.home (ETimer (Scenario.t0 + 2000))
              (step VTsx Scenario.home EUnmount Scenario.denied)) = 1%nat.
Proof.
  pose proof (auto_redirect_timer_is_never_cleared VTsx Scenario.home)
    as (H1 & H2 & H3).
  split; [|split].
  - apply (H1 Scenario.portal (Items ∅) Scenario.t0 Scenario.denied). reflexivity.
  - apply H2. intros now. discriminate.
  - apply (H3 (Scenario.t0 + 2000)
              (step VTsx Scenario.home EUnmount Scenario.denied)
              (Scenario.t0 + 2000)).
    + left. reflexivity.
    + unfold Scenario.t0. lia.
Defined.

(** ** Progress capture *)

Import VideoPlayer.

Example exactDecimal_samples :
  exactDecimal (21 # 4) = "5.25" /\ exactDecimal (10 # 1) = "10" /\
  exactDecimal (1 # 2) = "0.5" /\ exactDecimal 0%Q = "0".
Proof. repeat split; reflexivity. Qed.

Example progress_reads_back : parseFloat (exactDecimal (21 # 4)) = Val (21 # 4)%Q.
Proof. reflexivity. Qed.

(** C5, as stated, fails: from 0 to 12 seconds the number of progress
    writes is the number of [timeupdate] events that fall in the seconds
    0, 5 and 10, not two.  With an event every 250 ms there are twelve
    writes, with one event per second there are three. *)
Lemma twelve_seconds_more_than_two_writes :
  (exists p, playback exactDecimal Scenario.url1 Scenario.quarterTicks Scenario.fresh
             = Normal p /\
             length (written p) = 12%nat /\ length (written p) <> 2%nat) /\
  (exists p, playback exactDecimal Scenario.url1 Scenario.secondTicks Scenario.fresh
             = Normal p /\
             map snd (written p) = ["0"; "5"; "10"] /\ length (written p) <> 2%nat).
Proof.
  split; eexists; (split; [vm_compute; reflexivity|]); split;
    first [reflexivity | discriminate].
Qed.

Lemma rem5_mod5 a : (Z.rem a 5 =? 0) = (a mod 5 =? 0).
Proof.
  destruct (Z.eqb_spec (Z.rem a 5) 0) as [H | H];
    destruct (Z.eqb_spec (a mod 5) 0) as [H' | H']; try reflexivity; exfalso.
  - apply H'. apply Z.rem_divide in H; [|lia]. now apply Z.mod_divide.
  - apply H. apply Z.mod_divide in H'; [|lia]. now apply Z.rem_divide.
Qed.

Lemma floor_ge (k : Z) (t : Q) : (inject_Z k <= t)%Q <-> k <= Qfloor t.
Proof.
  split; intros H.
  - rewrite <- (Qfloor_Z k). now apply Qfloor_resp_le.
  - apply Qle_trans with (inject_Z (Qfloor t)).
    + now rewrite <- Zle_Qle.
    + apply Qfloor_le.
Qed.

Lemma floor_lt (k : Z) (t : Q) : (t < inject_Z k)%Q <-> Qfloor t < k.
Proof.
  split; intros H.
  - destruct (Z_lt_le_dec (Qfloor t) k) as [|Hle]; [assumption|].
    apply floor_ge in Hle. exfalso. apply (Qlt_not_le _ _ H Hle).
  - apply Qnot_le_lt. intros Hle. apply floor_ge in Hle. lia.
Qed.

Section ProgressCapture.

Variable toString : Q -> string.
Variable url : string.

Lemma timeupdate_spec (p : Player) (v : Video) (m : gmap string string) (t : Q) :
  videoRef p = Some v -> localStorage p = Items m ->
  timeupdate toString url t p
  = Normal
      (if Qfloor t mod 5 =? 0
       then mkPlayer (Some (mkVideo t (v_duration v))) t (duration p)
                     (Items (<[progressKey url := toString t]> m))
                     (written p ++ [(progressKey url, toString t)])
       else mkPlayer (Some (mkVideo t (v_duration v))) t (duration p)
                     (Items m) (written p)).
Proof.
  intros Hv Hm. destruct p as [vr ct du ls wr]. cbn in Hv, Hm. subst vr ls.
  unfold timeupdate, handleTimeUpdate, onFiveSecondMark.
  cbn [setVideo videoRef v_currentTime].
  rewrite rem5_mod5. destruct (Qfloor t mod 5 =? 0); reflexivity.
Qed.

Lemma playback_spec (ts : list Q) :
  forall (p : Player) (v : Video) (m : gmap string string),
  videoRef p = Some v -> localStorage p = Items m ->
  exists p' v' m',
    playback toString url ts p = Normal p' /\
    videoRef p' = Some v' /\ localStorage p' = Items m' /\
    written p'
    = (written p
       ++ map (fun t => (progressKey url, toString t))
              (List.filter (fun t => Qfloor t mod 5 =? 0) ts))%list.
Proof.
  induction ts as [|t ts IH]; intros p v m Hv Hm.
  - exists p, v, m. cbn. now rewrite app_nil_r.
  - cbn [playback]. rewrite (timeupdate_spec p v m t Hv Hm).
    cbn [mbind completion_bind List.filter].
    destruct (Qfloor t mod 5 =? 0).
    + match goal with |- context [playback _ _ _ ?q] =>
        destruct (IH q _ _ eq_refl eq_refl) as (p' & v' & m' & Hp & Hv' & Hm' & Hw)
      end.
      exists p', v', m'. rewrite Hp. repeat split; try assumption.
      rewrite Hw. cbn. now rewrite <- app_assoc.
    + match goal with |- context [playback _ _ _ ?q] =>
        destruct (IH q _ _ eq_refl eq_refl) as (p' & v' & m' & Hp & Hv' & Hm' & Hw)
      end.
      exists p', v', m'. rewrite Hp. repeat split; assumption.
Qed.

End ProgressCapture.

Lemma marks_up_to_twelve (t : Q) :
  (0 <= t)%Q -> (t <= 12)%Q ->
  (Qfloor t mod 5 = 0 <->
   (t < 1)%Q \/ (5 <= t /\ t < 6)%Q \/ (10 <= t /\ t < 11)%Q).
Proof.
  intros H0 H12.
  apply (floor_ge 0) in H0.
  assert (H12' : Qfloor t <= 12).
  { rewrite <- (Qfloor_Z 12). now apply Qfloor_resp_le. }
  change 1%Q with (inject_Z 1). change 5%Q with (inject_Z 5).
  change 6%Q with (inject_Z 6). change 10%Q with (inject_Z 10).
  change 11%Q with (inject_Z 11).
  rewrite !floor_ge, !floor_lt.
  pose proof (Z.mod_pos_bound (Qfloor t) 5 ltac:(lia)) as Hb.
  pose proof (Z.div_mod (Qfloor t) 5 ltac:(lia)) as Hd.
  lia.
Qed.

(** C5, amended.  A [timeupdate] at position [t] writes the progress entry
    exactly when the integer part of [t] is a multiple of 5, and then the
    entry holds [t] as printed; a second event at the same position leaves
    the storage as the first left it.  Over a run of events the writes are
    those of the events on such a second, one write per event: between 0
    and 12 seconds these are the events in [0,1), [5,6) and [10,11). *)
Theorem progress_write_on_fifth_seconds
    (toString : Q -> string) (url : string)
    (p : Player) (v : Video) (m : gmap string string) :
  videoRef p = Some v -> localStorage p = Items m ->
  (forall t, exists p',
     timeupdate toString url t p = Normal p' /\
     currentTime p' = t /\
     (Qfloor t mod 5 = 0 ->
      written p' = (written p ++ [(progressKey url, toString t)])%list /\
      localStorage p' = Items (<[progressKey url := toString t]> m)) /\
     (Qfloor t mod 5 <> 0 ->
      written p' = written p /\ localStorage p' = localStorage p) /\
     exists p'',
       timeupdate toString url t p' = Normal p'' /\
       localStorage p'' = localStorage p') /\
  (forall ts, exists p',
     playback toString url ts p = Normal p' /\
     written p'
     = (written p
        ++ map (fun t => (progressKey url, toString t))
               (List.filter (fun t => Qfloor t mod 5 =? 0) ts))%list) /\
  (forall t, (0 <= t)%Q -> (t <= 12)%Q ->
     (Qfloor t mod 5 = 0 <->
      (t < 1)%Q \/ (5 <= t /\ t < 6)%Q \/ (10 <= t /\ t < 11)%Q)).
Proof.
  intros Hv Hm. split; [|split].
  - intros t. rewrite (timeupdate_spec toString url p v m t Hv Hm).
    destruct (Z.eqb_spec (Qfloor t mod 5) 0) as [H5 | H5].
    + eexists. split; [reflexivity|].
      split; [reflexivity|].
      split; [intros _; split; reflexivity|].
      split; [intros Hn; congruence|].
      eexists. split; [apply timeupdate_spec; reflexivity|].
      destruct (Z.eqb_spec (Qfloor t mod 5) 0); [|congruence].
      cbn. now rewrite insert_insert_eq.
    + eexists. split; [reflexivity|].
      split; [reflexivity|].
      split; [intros Hn; congruence|].
      split; [intros _; split; [reflexivity | now rewrite Hm]|].
      eexists. split; [apply timeupdate_spec; reflexivity|].
      destruct (Z.eqb_spec (Qfloor t mod 5) 0); [congruence|].
      reflexivity.
  - intros ts.
    destruct (playback_spec toString url ts p v m Hv Hm)
      as (p' & _ & _ & Hp & _ & _ & Hw).
    exists p'. now split.
  - exact marks_up_to_twelve.
Qed.

Lemma progress_write_on_fifth_seconds_witness :
  exists p',
    timeupdate exactDecimal Scenario.url1 (21 # 4) Scenario.fresh = Normal p' /\
    currentTime p' = (21 # 4)%Q /\
    written p' = [(progressKey Scenario.url1, "5.25")] /\
    localStorage p' = Items {[progressKey Scenario.url1 := "5.25"]}.
Proof.
  destruct (progress_write_on_fifth_seconds exactDecimal Scenario.url1
              Scenario.fresh (mkVideo 0%Q (Some 120%Q)) ∅ eq_refl eq_refl)
    as (H & _ & _).
  destruct (H (21 # 4)%Q) as (p' & Hp & Hc & Hw & _ & _).
  exists p'. destruct (Hw eq_refl) as [Hw1 Hw2].
  repeat split; assumption.
Defined.

(** ** The progress key *)

Example btoa_samples :
  btoa "Man" = "TWFu" /\ btoa "Ma" = "TWE=" /\ btoa "M" = "TQ==" /\
  btoa "https://" = "aHR0cHM6Ly8=".
Proof. repeat split; reflexivity. Qed.

(** The key is the encoding of the first fifteen code units of the
    address and of nothing else. *)
Lemma videoId_first15 (url : string) : videoId url = btoa (substring 0 15 url).
Proof.
  assert (H0 : forall s, substring 0 0 s = "") by (now destruct s).
  unfold videoId.
  do 15 (destruct url as [|? url]; [reflexivity|]).
  cbn [substring btoa]. now rewrite !H0.
Qed.

Lemma videoId_same_prefix (u1 u2 : string) :
  substring 0 15 u1 = substring 0 15 u2 -> videoId u1 = videoId u2.
Proof. intros H. now rewrite !videoId_first15, H. Qed.

(** C6.  [videoId] is a function of the address, but two distinct
    addresses that agree on their first fifteen characters get the same
    key, hence the same progress entry. *)
Theorem videoId_collides_on_common_prefix :
  Scenario.url1 <> Scenario.url2 /\
  videoId Scenario.url1 = "aHR0cHM6Ly9jZG4uZXhh" /\
  videoId Scenario.url2 = "aHR0cHM6Ly9jZG4uZXhh" /\
  progressKey Scenario.url1 = progressKey Scenario.url2.
Proof. repeat split; [discriminate | reflexivity..]. Qed.

(** ** Seeking *)




Example seek_without_duration :
  handleSeek 25 0 100 Scenario.fresh = Normal Scenario.fresh.
Proof. reflexivity. Qed.

(** ** Persistence failures *)

Lemma checkAccess_unavailable now : checkAccess Unavailable now = false.
Proof. reflexivity. Qed.

Lemma checkAccess_corrupt (m : gmap string string) (s : string) (now : Z) :
  m !! "access_granted" = Some s -> parseInt s = NaN ->
  checkAccess (Items m) now = false.
Proof.
  intros Hm Hs. unfold checkAccess, getItem. rewrite Hm, Hs.
  now destruct (truthy s).
Qed.

Lemma loadSavedProgress_fresh (url : string) (v : option Video)
    (m : gmap string string) :
  m !! progressKey url = None ->
  loadSavedProgress url (initial v (Items m)) = Normal (initial v (Items m)).
Proof.
  intros Hm. unfold loadSavedProgress. destruct v as [v|]; [|reflexivity].
  cbn. now rewrite Hm.
Qed.

(** C9.  The access check turns a failing or corrupt storage into "no
    grant"; the restore step of the player does not: a storage read that
    throws, and a stored value that is not a number, both leave
    [loadSavedProgress] with an exception. *)
Theorem restore_lets_failures_through :
  checkAccess Unavailable AccessControl.Scenario.t0 = false /\
  checkAccess (Items {["access_granted" := "abc"]}) AccessControl.Scenario.t0 = false /\
  loadSavedProgress Scenario.url1 (initial (Some (mkVideo 0%Q None)) Unavailable)
  = Throw SecurityError /\
  loadSavedProgress Scenario.url1
    (initial (Some (mkVideo 0%Q None))
             (Items {[progressKey Scenario.url1 := "abc"]}))
  = Throw TypeError.
Proof. repeat split; reflexivity. Qed.

(** ** The progress round trip *)

Section RoundTrip.

Import VideoPlayer LecturesSection.

(** The printed form of a finite Number is not the empty string. *)
Lemma toString_double_truthy (q : Q) (m e : Z) :
  (q == double m e)%Q -> Z.abs m < 2 ^ 53 -> -1074 <= e <= 971 ->
  truthy (Number_toString_double q) = true.
Proof.
  intros Hq Hm He. pose proof (parseFloat_toString q m e Hq Hm He) as H.
  destruct (Number_toString_double q); [discriminate H | reflexivity].
Qed.

Example progress_of_a_double :
  Number_toString_double (double 21 (-2)) = "5.25" /\
  Number_toString_double (double 5629499534213120 (-49)) = "10" /\
  Number_toString_double (double 8444249301319680 (-49)) = "15" /\
  Number_toString_double (double 5770237022568448 (-49)) = "10.25" /\
  Number_toString_double (double 5879074388863204 (-50)) = "5.221667".
Proof. vm_compute. repeat split; reflexivity. Qed.

(** C10.  For every finite double [x = m * 2^e], the string that
    [toString] gives reads back under [parseFloat] as [x].  So when the
    player, at a position [x] on a five-second mark, writes the progress
    entry, the catalogue's [getLastWatchedTime] returns [x], and a player
    mounted afterwards on the same address sets the element's position to
    [x] (the element clamps a position outside the media's range once the
    duration is known).  The two zeros are one here, as they are for
    [===]: [toString] prints both as ["0"]. *)
Theorem progress_round_trips
    (url : string) (m e : Z) (p : Player) (v : Video)
    (st : gmap string string) :
  Z.abs m < 2 ^ 53 -> -1074 <= e <= 971 ->
  parseFloat (Number_toString_double (double m e)) = Val (Qred (double m e)) /\
  (videoRef p = Some v -> v_currentTime v = double m e ->
   localStorage p = Items st -> onFiveSecondMark (double m e) = true ->
   exists p1,
     handleTimeUpdate Number_toString_double url p = Normal p1 /\
     getItem (localStorage p1) (progressKey url)
     = Normal (Some (Number_toString_double (double m e))) /\
     getLastWatchedTime (localStorage p1) url
     = Normal (Val (Qred (double m e))) /\
     forall v0,
       (forall d, v_duration v0 = Some d -> (0 <= double m e <= d)%Q) ->
       exists v1,
         loadSavedProgress url (initial (Some v0) (localStorage p1))
         = Normal (setVideo v1 (initial (Some v0) (localStorage p1))) /\
         (v_currentTime v1 == double m e)%Q).
Proof.
  intros Hm He.
  pose proof (parseFloat_toString (double m e) m e ltac:(reflexivity) Hm He)
    as Hread.
  pose proof (toString_double_truthy (double m e) m e ltac:(reflexivity) Hm He)
    as Htruthy.
  split; [exact Hread|].
  intros Hv Hx Hst Hmark.
  destruct p as [vr ct du ls wr]. cbn in Hv, Hst. subst vr ls.
  unfold handleTimeUpdate. cbn [videoRef]. rewrite Hx, Hmark.
  eexists. split; [reflexivity|].
  cbn [localStorage]. split; [|split].
  - cbn. now rewrite lookup_insert_eq.
  - unfold getLastWatchedTime. fold (videoId url). fold (progressKey url).
    cbn [getItem mbind completion_bind]. rewrite lookup_insert_eq.
    now rewrite Htruthy, Hread.
  - intros v0 Hrange. unfold loadSavedProgress, initial.
    cbn [videoRef localStorage getItem mbind completion_bind].
    rewrite lookup_insert_eq, Htruthy, Hread.
    unfold Video_setCurrentTime.
    destruct (v_duration v0) as [d|] eqn:Ed.
    + eexists. split; [reflexivity|]. cbn [v_currentTime].
      destruct (Hrange d eq_refl) as [H0 Hd].
      rewrite Q.max_l by (rewrite Qred_correct; exact H0).
      rewrite Q.min_l by (rewrite Qred_correct; exact Hd).
      apply Qred_correct.
    + eexists. split; [reflexivity|]. cbn [v_currentTime].
      apply Qred_correct.
Qed.

Lemma progress_round_trips_witness :
  parseFloat (Number_toString_double (double 21 (-2)))
  = Val (Qred (double 21 (-2))) /\
  exists p1,
    handleTimeUpdate Number_toString_double Scenario.url1
      (mkPlayer (Some (mkVideo (double 21 (-2)) (Some 120%Q))) 0%Q 120%Q
                (Items ∅) []) = Normal p1 /\
    getLastWatchedTime (localStorage p1) Scenario.url1
    = Normal (Val (Qred (double 21 (-2)))).
Proof.
  destruct (progress_round_trips Scenario.url1 21 (-2)
              (mkPlayer (Some (mkVideo (double 21 (-2)) (Some 120%Q))) 0%Q 120%Q
                        (Items ∅) [])
              (mkVideo (double 21 (-2)) (Some 120%Q)) ∅)
    as [H1 H2]; [reflexivity | lia |].
  split; [exact H1|].
  destruct H2 as (p1 & Hp & _ & Hg & _); [reflexivity ..|].
  exists p1. split; assumption.
Defined.

End RoundTrip.

(** * Further properties *)

(** ** The gate over whole runs *)

Section GateRuns.

Import AccessControl.

Lemma checkAccess_true_stored (ls : Storage) (now : Z) :
  checkAccess ls now = true ->
  exists m s, ls = Items m /\ m !! "access_granted" = Some s.
Proof.
  unfold checkAccess. destruct ls as [|m]; cbn; [discriminate|].
  destruct (m !! "access_granted") as [s|] eqn:E; [|discriminate].
  intros _. now exists m, s.
Qed.

(** What a settled round trip of AccessControl.tsx leaves behind. *)
Lemma Tsx_settle_effect (home : URL) (o : FetchOutcome) (w : World) :
  let w' := Tsx.redirectToShortener_settle home o w in
  localStorage w' = localStorage w /\ hasAccess w' = hasAccess w /\
  isChecking w' = isChecking w /\ location w' = location w /\
  mounted w' = mounted w /\
  (exists t, href w' = Some t) /\
  (mounted w = true -> isRedirecting w' = false) /\
  inflight w' = pred (inflight w).
Proof.
  assert (Hn : forall t, let w' := finally (navigate t w) in
            localStorage w' = localStorage w /\ hasAccess w' = hasAccess w /\
            isChecking w' = isChecking w /\ location w' = location w /\
            mounted w' = mounted w /\
            (exists t, href w' = Some t) /\
            (mounted w = true -> isRedirecting w' = false) /\
            inflight w' = pred (inflight w)).
  { intros t. destruct w as [ls loc ha ic ir [] ts n h]; cbn;
      repeat split; eauto; discriminate. }
  unfold Tsx.redirectToShortener_settle, Tsx.onError.
  destruct o as [| |data|data]; try apply Hn;
    unfold Tsx.onResponse;
    (destruct (getProp data "status") as [st|]; [|apply Hn]);
    (destruct (getProp data "shortenedUrl") as [su|]; [|apply Hn]);
    cbn; destruct (isSuccess st && toBoolean su); apply Hn.
Qed.

Lemma Part002_settle_effect (now : Z) (o : FetchOutcome) (w : World)
    (m : gmap string string) :
  localStorage w = Items m ->
  let w' := Part002.redirectToShortener_settle now o w in
  isChecking w' = isChecking w /\ location w' = location w /\
  mounted w' = mounted w /\ timers w' = timers w /\
  (mounted w = true -> isRedirecting w' = false) /\
  inflight w' = pred (inflight w) /\
  match offered o with
  | Some v =>
      href w' = Some (ToValue v) /\ localStorage w' = Items m /\
      hasAccess w' = hasAccess w
  | None =>
      href w' = href w /\
      localStorage w' = Items (<["access_granted" := Number_toString now]> m) /\
      hasAccess w' = (if mounted w then true else hasAccess w)
  end.
Proof.
  intros Hls. destruct w as [ls loc ha ic ir mo ts n h]. cbn in Hls. subst ls.
  unfold Part002.redirectToShortener_settle, Part002.onError, offered.
  destruct o as [| |data|data];
    try (destruct mo; cbn; repeat split; congruence);
    unfold Part002.onResponse;
    (destruct (getProp data "shortenedUrl") as [a|];
      [|destruct mo; cbn; repeat split; congruence]);
    (destruct (getProp data "shorturl") as [b|];
      [|destruct mo; cbn; repeat split; congruence]);
    cbn; destruct (toBoolean (orElse a b));
    destruct mo; cbn; repeat split; congruence.
Qed.

Lemma step_blocked (v : variant) (home : URL) (e : event) (w : World) :
  localStorage w = Unavailable -> hasAccess w = false ->
  localStorage (step v home e w) = Unavailable /\
  hasAccess (step v home e w) = false.
Proof.
  intros Hls Ha. destruct w as [ls loc ha ic ir mo ts n h].
  cbn in Hls, Ha. subst ls ha.
  destruct e as [now | | | now | now o]; cbn [step].
  - unfold useEffect_body. cbn [localStorage location].
    destruct (bool_decide (_ = _)); [now split|].
    destruct mo; now split.
  - now split.
  - destruct (buttonEnabled _); [|now split]. destruct mo; now split.
  - cbn [timers]. destruct (takeDue now ts); [|now split].
    destruct mo; now split.
  - cbn [inflight]. destruct n; [now split|]. destruct v; cbn [settle].
    + destruct (Tsx_settle_effect home o
                  (mkWorld Unavailable loc false ic ir mo ts (S n) h))
        as (H1 & H2 & _).
      now rewrite H1, H2.
    + unfold Part002.redirectToShortener_settle, Part002.onError.
      destruct o as [| |data|data]; try (destruct mo; now split);
        unfold Part002.onResponse;
        (destruct (getProp data "shortenedUrl") as [a|];
          [|destruct mo; now split]);
        (destruct (getProp data "shorturl") as [b|]; [|destruct mo; now split]);
        cbn; destruct (toBoolean (orElse a b)); destruct mo; now split.
Qed.

(** X1.  With the storage refusing access the gate never grants: over any
    sequence of events, in either variant, [hasAccess] stays [false] and
    nothing is stored; and on a mount that carries the marker the effect
    throws at its [setItem], before any state setter or address rewrite
    has run, which takes the component off the page. *)
Theorem blocked_storage_never_grants
    (v : variant) (home u : URL) (es : list event) :
  (hasAccess (run v home es (load u Unavailable)) = false /\
   localStorage (run v home es (load u Unavailable)) = Unavailable /\
   render (run v home es (load u Unavailable)) <> Granted) /\
  (forall now,
     URLSearchParams_get (search u) "from_shortener" = Some "true" ->
     useEffect now (load u Unavailable) = Throw SecurityError /\
     mounted (step v home (EMount now) (load u Unavailable)) = false /\
     location (step v home (EMount now) (load u Unavailable)) = u /\
     timers (step v home (EMount now) (load u Unavailable)) = []).
Proof.
  split.
  - assert (H : forall w, localStorage w = Unavailable -> hasAccess w = false ->
                localStorage (run v home es w) = Unavailable /\
                hasAccess (run v home es w) = false).
    { unfold run. induction es as [|e es IH]; intros w Hl Ha; [now split|].
      cbn [fold_left]. destruct (step_blocked v home e w Hl Ha). now apply IH. }
    destruct (H (load u Unavailable) eq_refl eq_refl) as [Hl Ha].
    repeat split; try assumption.
    unfold render. rewrite Ha. now destruct (isChecking _).
  - intros now Hq.
    assert (He : useEffect_body now (load u Unavailable)
                 = (load u Unavailable, Some SecurityError)).
    { unfold useEffect_body. cbn [load location search localStorage].
      rewrite Hq, bool_decide_eq_true_2 by reflexivity. reflexivity. }
    repeat split; [unfold useEffect | cbn [step] ..]; now rewrite He.
Qed.

Lemma blocked_storage_never_grants_witness :
  (useEffect 1700000000000
     (load (mkURL "https://portal.example" "/" [("from_shortener", "true")] "")
           Unavailable) = Throw SecurityError /\
   mounted
     (step VTsx Scenario.home (EMount 1700000000000)
        (load (mkURL "https://portal.example" "/" [("from_shortener", "true")] "")
              Unavailable)) = false) /\
  hasAccess
    (run VPart002 Scenario.home
       [EMount 1700000000000; ETimer 1700000002000;
        ESettle 1700000002100 Rejected]
       (load Scenario.portal Unavailable)) = false.
Proof.
  split.
  - destruct (blocked_storage_never_grants VTsx Scenario.home
                (mkURL "https://portal.example" "/" [("from_shortener", "true")] "")
                []) as [_ H].
    destruct (H 1700000000000 eq_refl) as (H1 & H2 & _). now split.
  - apply (blocked_storage_never_grants VPart002 Scenario.home Scenario.portal
             [EMount 1700000000000; ETimer 1700000002000;
              ESettle 1700000002100 Rejected]).
Defined.

(** One step of the gate on working storage: the store is kept or gains
    the grant entry, and [hasAccess] can only be [true] afterwards if it was
    before or the grant is stored. *)
Lemma step_grant_inv (v : variant) (home : URL) (e : event) (w : World)
    (m : gmap string string) :
  localStorage w = Items m ->
  exists m',
    localStorage (step v home e w) = Items m' /\
    (m' = m \/ exists s, m' = <["access_granted" := s]> m) /\
    (hasAccess (step v home e w) = true ->
     hasAccess w = true \/ is_Some (m' !! "access_granted")).
Proof.
  intros Hls. destruct w as [ls loc ha ic ir mo ts n h]. cbn in Hls. subst ls.
  destruct e as [now | | | now | now o]; cbn [step].
  - unfold useEffect_body. cbn [localStorage location setItem].
    destruct (bool_decide (_ = _)).
    + exists (<["access_granted" := Number_toString now]> m).
      split; [destruct mo; cbn; destruct (replaceState_pathname loc);
              reflexivity|].
      split; [right; eauto|].
      intros _. right. rewrite lookup_insert_eq. eauto.
    + exists m. destruct (checkAccess (Items m) now) eqn:E.
      * split; [destruct mo; reflexivity|]. split; [now left|].
        intros _. right.
        destruct (checkAccess_true_stored _ _ E) as (m0 & s & [= <-] & Hs).
        rewrite Hs. eauto.
      * split; [destruct mo; reflexivity|]. split; [now left|].
        destruct mo; cbn; intros H; [discriminate | now left].
  - exists m. repeat split; [now left | intros H; now left].
  - exists m. destruct (buttonEnabled _); [|repeat split; [now left|now left]].
    destruct mo; cbn; repeat split; try (now left).
  - exists m. cbn [timers]. destruct (takeDue now ts);
      [|repeat split; [now left|now left]].
    destruct mo; cbn; repeat split; try (now left).
  - cbn [inflight]. destruct n;
      [exists m; repeat split; [now left|now left]|].
    destruct v; cbn [settle].
    + destruct (Tsx_settle_effect home o
                  (mkWorld (Items m) loc ha ic ir mo ts (S n) h))
        as (H1 & H2 & _).
      exists m. rewrite H1, H2. repeat split; [now left | now left].
    + destruct (Part002_settle_effect now o
                  (mkWorld (Items m) loc ha ic ir mo ts (S n) h) m eq_refl)
        as (_ & _ & _ & _ & _ & _ & H).
      destruct (offered o).
      * destruct H as (_ & H1 & H2). exists m. rewrite H1, H2.
        repeat split; [now left | now left].
      * destruct H as (_ & H1 & H2). eexists. rewrite H1.
        split; [reflexivity|]. split; [right; eauto|].
        intros _. right. rewrite lookup_insert_eq. eauto.
Qed.

(** X2.  On working storage the gate only ever writes the key
    [access_granted]: over any run every other key keeps its value, and a
    grant, once stored, is never removed. *)
Theorem gate_writes_only_the_grant
    (v : variant) (home : URL) (es : list event) (w : World)
    (m : gmap string string) :
  localStorage w = Items m ->
  exists m',
    localStorage (run v home es w) = Items m' /\
    (forall k, k <> "access_granted" -> m' !! k = m !! k) /\
    (is_Some (m !! "access_granted") -> is_Some (m' !! "access_granted")).
Proof.
  unfold run. revert w m. induction es as [|e es IH]; intros w m Hls.
  - exists m. now repeat split.
  - cbn [fold_left].
    destruct (step_grant_inv v home e w m Hls) as (m1 & H1 & Hm1 & _).
    destruct (IH _ m1 H1) as (m' & H' & Hk & Hg).
    exists m'. split; [exact H'|]. split.
    + intros k Hne. rewrite (Hk k Hne).
      destruct Hm1 as [-> | [s ->]]; [reflexivity|].
      now rewrite lookup_insert_ne.
    + intros Hs. apply Hg.
      destruct Hm1 as [-> | [s ->]]; [exact Hs|].
      rewrite lookup_insert_eq. eauto.
Qed.

Lemma gate_writes_only_the_grant_witness :
  exists m',
    localStorage
      (run VPart002 Scenario.home
         [EMount Scenario.t0; EClick; ESettle (Scenario.t0 + 500) Rejected]
         (load Scenario.portal (Items {["video_progress_abc" := "5.25"]})))
    = Items m' /\
    (forall k, k <> "access_granted" ->
               m' !! k = ({["video_progress_abc" := "5.25"]} : gmap string string) !! k) /\
    (is_Some (({["video_progress_abc" := "5.25"]} : gmap string string)
                !! "access_granted") ->
     is_Some (m' !! "access_granted")).
Proof.
  apply (gate_writes_only_the_grant VPart002 Scenario.home
           [EMount Scenario.t0; EClick; ESettle (Scenario.t0 + 500) Rejected]
           (load Scenario.portal (Items {["video_progress_abc" := "5.25"]}))
           {["video_progress_abc" := "5.25"]}).
  reflexivity.
Defined.

(** X3.  From a freshly loaded page, whatever events follow, the protected
    content is shown only while a grant entry is in the storage. *)
Theorem granted_only_with_stored_grant
    (v : variant) (home u : URL) (m : gmap string string) (es : list event) :
  render (run v home es (load u (Items m))) = Granted ->
  exists m' s,
    localStorage (run v home es (load u (Items m))) = Items m' /\
    m' !! "access_granted" = Some s.
Proof.
  assert (H : forall w m0,
            localStorage w = Items m0 ->
            (hasAccess w = true -> is_Some (m0 !! "access_granted")) ->
            exists m',
              localStorage (run v home es w) = Items m' /\
              (hasAccess (run v home es w) = true ->
               is_Some (m' !! "access_granted"))).
  { unfold run. induction es as [|e es IH]; intros w m0 Hls Hinv.
    - exists m0. now split.
    - cbn [fold_left].
      destruct (step_grant_inv v home e w m0 Hls) as (m1 & H1 & Hm1 & Ha).
      apply (IH _ m1 H1). intros Hacc.
      destruct (Ha Hacc) as [Hw | Hs]; [|exact Hs].
      specialize (Hinv Hw).
      destruct Hm1 as [-> | [s ->]]; [exact Hinv|].
      rewrite lookup_insert_eq. eauto. }
  intros Hr.
  destruct (H (load u (Items m)) m eq_refl) as (m' & Hls & Hs);
    [cbn; discriminate|].
  unfold render in Hr.
  destruct (isChecking _); [discriminate|].
  destruct (hasAccess _) eqn:E; [|discriminate].
  destruct (Hs eq_refl) as [s Hs']. now exists m', s.
Qed.

Lemma granted_only_with_stored_grant_witness :
  exists m' s,
    localStorage
      (run VPart002 Scenario.home
         [EMount Scenario.t0; EClick; ESettle (Scenario.t0 + 500) Rejected]
         (load Scenario.portal (Items ∅))) = Items m' /\
    m' !! "access_granted" = Some s.
Proof.
  apply (granted_only_with_stored_grant VPart002 Scenario.home Scenario.portal ∅
           [EMount Scenario.t0; EClick; ESettle (Scenario.t0 + 500) Rejected]).
  reflexivity.
Defined.

End GateRuns.

(** ** The redirect flow, whatever the answer *)

Section GateFlow.

Import AccessControl.

Lemma accepted_spec (o : FetchOutcome) (v : option json) :
  accepted o = Some v <->
  exists data,
    o = Body data /\
    getProp data "status" = Normal (Some (JString "success")) /\
    getProp data "shortenedUrl" = Normal v /\ toBoolean v = true.
Proof.
  split.
  - unfold accepted. destruct o as [| |data|data]; try discriminate.
    destruct (getProp data "status") as [st|] eqn:Est; [|discriminate].
    destruct (getProp data "shortenedUrl") as [su|] eqn:Esu; [|discriminate].
    destruct (isSuccess st) eqn:Es; [|discriminate].
    destruct (toBoolean su) eqn:Et; [|discriminate].
    cbn. intros [= <-]. apply isSuccess_true in Es. subst st.
    exists data. repeat split; assumption.
  - intros (data & -> & Hst & Hsu & Ht). unfold accepted.
    rewrite Hst, Hsu. cbn [isSuccess]. now rewrite Ht.
Qed.

Lemma offered_spec (o : FetchOutcome) (v : option json) :
  offered o = Some v <->
  exists data a b,
    o = Body data /\
    getProp data "shortenedUrl" = Normal a /\ getProp data "shorturl" = Normal b /\
    v = orElse a b /\ toBoolean v = true.
Proof.
  split.
  - unfold offered. destruct o as [| |data|data]; try discriminate.
    destruct (getProp data "shortenedUrl") as [a|] eqn:Ea; [|discriminate].
    destruct (getProp data "shorturl") as [b|] eqn:Eb; [|discriminate].
    destruct (toBoolean (orElse a b)) eqn:Et; [|discriminate].
    intros [= <-]. exists data, a, b. repeat split; assumption.
  - intros (data & a & b & -> & Ha & Hb & -> & Ht). unfold offered.
    now rewrite Ha, Hb, Ht.
Qed.

(** X4.  In src/components/AccessControl.tsx the redirect flow always ends
    with a navigation and changes neither the storage nor [hasAccess].
    The browser goes to the response's [shortenedUrl] exactly when the
    document's [status] is ['success'], that property is truthy and the
    browser takes it as a URL; for every other answer or failure it goes
    to the return URL. *)
Theorem tsx_flow_only_navigates (home : URL) (o : FetchOutcome) (w : World) :
  localStorage (Tsx.redirectToShortener home o w) = localStorage w /\
  hasAccess (Tsx.redirectToShortener home o w) = hasAccess w /\
  href (Tsx.redirectToShortener home o w)
  = Some (match accepted o with
          | Some v => ToValue v
          | None => ToURL (returnUrl home)
          end) /\
  (forall v,
     accepted o = Some v <->
     exists data,
       o = Body data /\
       getProp data "status" = Normal (Some (JString "success")) /\
       getProp data "shortenedUrl" = Normal v /\ toBoolean v = true).
Proof.
  assert (Hn : forall t w0, href (finally (navigate t w0)) = Some t).
  { intros t [ls loc ha ic ir [] ts n h]; reflexivity. }
  unfold Tsx.redirectToShortener.
  destruct (Tsx_settle_effect home o (redirectToShortener_begin w))
    as (H1 & H2 & _).
  rewrite H1, H2. split; [|split; [|split]].
  - destruct w as [ls loc ha ic ir [] ts n h]; reflexivity.
  - destruct w as [ls loc ha ic ir [] ts n h]; reflexivity.
  - unfold Tsx.redirectToShortener_settle, Tsx.onError, accepted.
    destruct o as [| |data|data]; try apply Hn;
      unfold Tsx.onResponse;
      (destruct (getProp data "status") as [st|] eqn:Est; [|apply Hn]);
      (destruct (getProp data "shortenedUrl") as [su|] eqn:Esu; [|apply Hn]);
      cbn; destruct (isSuccess st && toBoolean su); apply Hn.
  - intros v. apply accepted_spec.
Qed.

Lemma tsx_flow_only_navigates_witness :
  href (Tsx.redirectToShortener Scenario.home (Body Scenario.bodyShortenedUrl)
          Scenario.denied)
  = Some (ToValue (Some (JString Scenario.short))) /\
  href (Tsx.redirectToShortener Scenario.home (Body Scenario.bodyErrorStatus)
          Scenario.denied)
  = Some (ToURL (returnUrl Scenario.home)) /\
  href (Tsx.redirectToShortener Scenario.home
          (Unnavigable Scenario.bodyShortenedUrl) Scenario.denied)
  = Some (ToURL (returnUrl Scenario.home)).
Proof.
  split; [|split].
  - apply (tsx_flow_only_navigates Scenario.home (Body Scenario.bodyShortenedUrl)
             Scenario.denied).
  - apply (tsx_flow_only_navigates Scenario.home (Body Scenario.bodyErrorStatus)
             Scenario.denied).
  - apply (tsx_flow_only_navigates Scenario.home
             (Unnavigable Scenario.bodyShortenedUrl) Scenario.denied).
Defined.

(** X5.  In src/unnamed/part_002, on working storage and while mounted,
    the redirect flow does exactly one of two things.  When the response
    has a truthy [shortenedUrl] or [shorturl] that the browser takes as a
    URL, it navigates to that value and leaves storage and [hasAccess]
    alone.  In every other case, a value the browser refuses included, it
    writes the grant, sets [hasAccess] and does not navigate. *)
Theorem part002_flow_navigates_or_grants
    (now : Z) (o : FetchOutcome) (w : World) (m : gmap string string) :
  localStorage w = Items m -> mounted w = true ->
  match offered o with
  | Some v =>
      toBoolean v = true /\
      href (Part002.redirectToShortener now o w) = Some (ToValue v) /\
      localStorage (Part002.redirectToShortener now o w) = Items m /\
      hasAccess (Part002.redirectToShortener now o w) = hasAccess w
  | None =>
      href (Part002.redirectToShortener now o w) = href w /\
      localStorage (Part002.redirectToShortener now o w)
      = Items (<["access_granted" := Number_toString now]> m) /\
      hasAccess (Part002.redirectToShortener now o w) = true
  end /\
  (forall v,
     offered o = Some v <->
     exists data a b,
       o = Body data /\
       getProp data "shortenedUrl" = Normal a /\
       getProp data "shorturl" = Normal b /\
       v = orElse a b /\ toBoolean v = true).
Proof.
  intros Hls Hm. split; [|intros v; apply offered_spec].
  unfold Part002.redirectToShortener.
  destruct w as [ls loc ha ic ir mo ts n h]. cbn in Hls, Hm. subst ls mo.
  pose proof (Part002_settle_effect now o
                (redirectToShortener_begin
                   (mkWorld (Items m) loc ha ic ir true ts n h)) m eq_refl)
    as (_ & _ & _ & _ & _ & _ & H).
  destruct (offered o) as [v|] eqn:E.
  - destruct H as (H1 & H2 & H3). repeat split; try assumption.
    apply offered_spec in E. destruct E as (? & ? & ? & _ & _ & _ & _ & Ht).
    exact Ht.
  - destruct H as (H1 & H2 & H3). repeat split; assumption.
Qed.

Lemma part002_flow_navigates_or_grants_witness :
  (href (Part002.redirectToShortener 1700000002000
           (Body (JObject [("shorturl", JNumber 5)])) Scenario.denied)
   = Some (ToValue (Some (JNumber 5)))) /\
  hasAccess (Part002.redirectToShortener 1700000002000
               (Body (JObject [("shorturl", JString "")])) Scenario.denied)
  = true /\
  (href (Part002.redirectToShortener 1700000002000
           (Unnavigable (JObject [("shorturl", JString "https://")]))
           Scenario.denied) = href Scenario.denied /\
   hasAccess (Part002.redirectToShortener 1700000002000
                (Unnavigable (JObject [("shorturl", JString "https://")]))
                Scenario.denied) = true).
Proof.
  split; [|split].
  - apply (part002_flow_navigates_or_grants 1700000002000
             (Body (JObject [("shorturl", JNumber 5)])) Scenario.denied ∅
             eq_refl eq_refl).
  - apply (part002_flow_navigates_or_grants 1700000002000
             (Body (JObject [("shorturl", JString "")])) Scenario.denied ∅
             eq_refl eq_refl).
  - destruct (part002_flow_navigates_or_grants 1700000002000
                (Unnavigable (JObject [("shorturl", JString "https://")]))
                Scenario.denied ∅ eq_refl eq_refl) as [(H1 & _ & H3) _].
    now split.
Defined.

(** X6.  While the component is mounted the flag [isRedirecting] brackets
    the flow in both variants: it is raised when the flow starts, a click on
    the button is then ignored, and it is lowered again when the flow
    settles, whatever the outcome, with the count of pending requests back
    where it was. *)
Theorem redirecting_flag_brackets_flow
    (v : variant) (home : URL) (now : Z) (o : FetchOutcome) (w : World) :
  mounted w = true ->
  isRedirecting (redirectToShortener_begin w) = true /\
  step v home EClick (redirectToShortener_begin w) = redirectToShortener_begin w /\
  isRedirecting (settle v home now o (redirectToShortener_begin w)) = false /\
  inflight (settle v home now o (redirectToShortener_begin w)) = inflight w.
Proof.
  intros Hm. destruct w as [ls loc ha ic ir mo ts n h]. cbn in Hm. subst mo.
  split; [reflexivity|]. split.
  - cbn [step]. unfold buttonEnabled. cbn. now rewrite andb_false_r.
  - destruct v; cbn [settle].
    + destruct (Tsx_settle_effect home o
                  (redirectToShortener_begin
                     (mkWorld ls loc ha ic ir true ts n h)))
        as (_ & _ & _ & _ & _ & _ & Hr & Hi).
      split; [now apply Hr | exact Hi].
    + destruct ls as [|m].
      * unfold Part002.redirectToShortener_settle, Part002.onError.
        destruct o as [| |data|data]; try (split; reflexivity);
          unfold Part002.onResponse;
          (destruct (getProp data "shortenedUrl") as [a|];
            [|split; reflexivity]);
          (destruct (getProp data "shorturl") as [b|]; [|split; reflexivity]);
          cbn; destruct (toBoolean (orElse a b)); split; reflexivity.
      * destruct (Part002_settle_effect now o
                    (redirectToShortener_begin
                       (mkWorld (Items m) loc ha ic ir true ts n h)) m eq_refl)
          as (_ & _ & _ & _ & Hr & Hi & _).
        split; [now apply Hr | exact Hi].
Qed.

Lemma redirecting_flag_brackets_flow_witness :
  isRedirecting (redirectToShortener_begin Scenario.denied) = true /\
  step VTsx Scenario.home EClick (redirectToShortener_begin Scenario.denied)
  = redirectToShortener_begin Scenario.denied /\
  isRedirecting (settle VTsx Scenario.home 1700000002100 NotJson
                   (redirectToShortener_begin Scenario.denied)) = false /\
  inflight (settle VTsx Scenario.home 1700000002100 NotJson
              (redirectToShortener_begin Scenario.denied))
  = inflight Scenario.denied.
Proof.
  apply (redirecting_flag_brackets_flow VTsx Scenario.home 1700000002100 NotJson
           Scenario.denied).
  reflexivity.
Defined.

End GateFlow.

(** ** The return URL and the age of a grant *)

Section GateUrl.

Import AccessControl.

Lemma set_unfold_cons ps k v k0 v0 :
  URLSearchParams_set ((k0, v0) :: ps) k v
  = if String.eqb k0 k
    then (k, v) :: List.filter (fun p => negb (String.eqb (fst p) k)) ps
    else (k0, v0) :: URLSearchParams_set ps k v.
Proof.
  cbn [URLSearchParams_set]. destruct (String.eqb k0 k); [|reflexivity].
  f_equal. induction ps as [|[k1 v1] ps IH]; [reflexivity|].
  rewrite filter_cons. cbn.
  destruct (String.eqb k1 k); cbn; [exact IH | now rewrite IH].
Qed.

Lemma get_filter_other ps k k' :
  k' <> k ->
  URLSearchParams_get (List.filter (fun p => negb (String.eqb (fst p) k)) ps) k'
  = URLSearchParams_get ps k'.
Proof.
  intros Hne. induction ps as [|[k0 v0] ps IH]; [reflexivity|].
  cbn. destruct (String.eqb_spec k0 k) as [-> | Hk0]; cbn.
  - destruct (String.eqb_spec k k'); [congruence | exact IH].
  - destruct (String.eqb k0 k'); [reflexivity | exact IH].
Qed.

Lemma get_set_other ps k v k' :
  k' <> k ->
  URLSearchParams_get (URLSearchParams_set ps k v) k' = URLSearchParams_get ps k'.
Proof.
  intros Hne. induction ps as [|[k0 v0] ps IH].
  - cbn. destruct (String.eqb_spec k k'); [congruence | reflexivity].
  - rewrite set_unfold_cons.
    destruct (String.eqb_spec k0 k) as [-> | Hk0]; cbn.
    + destruct (String.eqb_spec k k'); [congruence|].
      now apply get_filter_other.
    + destruct (String.eqb k0 k'); [reflexivity | exact IH].
Qed.

Lemma named_filter_none (ps : list (string * string)) k :
  List.filter (fun p => String.eqb (fst p) k)
    (List.filter (fun p => negb (String.eqb (fst p) k)) ps) = [].
Proof.
  induction ps as [|[k0 v0] ps IH]; [reflexivity|].
  cbn. destruct (String.eqb k0 k) eqn:E; cbn; [exact IH|].
  now rewrite E.
Qed.

Lemma named_after_set ps k v :
  List.filter (fun p => String.eqb (fst p) k) (URLSearchParams_set ps k v)
  = [(k, v)].
Proof.
  induction ps as [|[k0 v0] ps IH].
  - cbn. now rewrite String.eqb_refl.
  - rewrite set_unfold_cons. destruct (String.eqb k0 k) eqn:E; cbn.
    + rewrite String.eqb_refl. now rewrite named_filter_none.
    + rewrite E. exact IH.
Qed.

Lemma filter_other_set_fresh (ps : list (string * string)) k (v : string) :
  List.filter (fun p => String.eqb (fst p) k) ps = [] ->
  List.filter (fun p => negb (String.eqb (fst p) k)) ps = ps.
Proof.
  induction ps as [|[k0 v0] ps IH]; [reflexivity|].
  cbn. destruct (String.eqb k0 k); cbn; [discriminate|].
  intros H. now rewrite IH.
Qed.

Lemma set_set ps k v :
  URLSearchParams_set (URLSearchParams_set ps k v) k v = URLSearchParams_set ps k v.
Proof.
  induction ps as [|[k0 v0] ps IH].
  - cbn. now rewrite String.eqb_refl.
  - rewrite set_unfold_cons. destruct (String.eqb k0 k) eqn:E.
    + rewrite set_unfold_cons, String.eqb_refl. f_equal.
      apply (filter_other_set_fresh _ k v). apply named_filter_none.
    + rewrite set_unfold_cons, E. now rewrite IH.
Qed.

(** X7.  The return URL built by the redirect flow is the home page's URL
    with exactly one [from_shortener] parameter, valued [true], whatever
    the home page's query held; every other parameter reads as before,
    origin, path and fragment are kept, and building it again from the
    result changes nothing. *)
Theorem returnUrl_carries_one_marker (home : URL) :
  URLSearchParams_get (search (returnUrl home)) "from_shortener" = Some "true" /\
  List.filter (fun p => String.eqb (fst p) "from_shortener") (search (returnUrl home))
  = [("from_shortener", "true")] /\
  (forall k, k <> "from_shortener" ->
     URLSearchParams_get (search (returnUrl home)) k
     = URLSearchParams_get (search home) k) /\
  origin (returnUrl home) = origin home /\
  pathname (returnUrl home) = pathname home /\
  hash (returnUrl home) = hash home /\
  returnUrl (returnUrl home) = returnUrl home.
Proof.
  unfold returnUrl. cbn [search origin pathname hash].
  split; [apply URLSearchParams_get_set|].
  split; [apply named_after_set|].
  split; [intros k Hk; now apply get_set_other|].
  repeat split. now rewrite set_set.
Qed.

Lemma returnUrl_carries_one_marker_witness :
  let home := mkURL "https://mywebsite.com" "/"
                [("from_shortener", "false"); ("ref", "mail");
                 ("from_shortener", "maybe")] "#top" in
  search (returnUrl home) = [("from_shortener", "true"); ("ref", "mail")] /\
  URLSearchParams_get (search (returnUrl home)) "ref" = Some "mail".
Proof.
  cbv zeta. split; [reflexivity|].
  destruct (returnUrl_carries_one_marker
              (mkURL "https://mywebsite.com" "/"
                 [("from_shortener", "false"); ("ref", "mail");
                  ("from_shortener", "maybe")] "#top"))
    as (_ & _ & H & _).
  rewrite (H "ref"); [reflexivity | discriminate].
Defined.

(** X8.  The age check has no lower bound.  For a grant stamped [t] as the
    gate writes it, access valid at some time is valid at every earlier
    time, and a grant stamped at or after the current time (a clock set
    back) is always valid. *)
Theorem grant_validity_is_downward_closed
    (m : gmap string string) (t : Z) :
  m !! "access_granted" = Some (Number_toString t) ->
  (forall now now',
     now' <= now -> checkAccess (Items m) now = true ->
     checkAccess (Items m) now' = true) /\
  (forall now, now <= t -> checkAccess (Items m) now = true).
Proof.
  intros Hm. split.
  - intros now now' Hle. rewrite !(checkAccess_stored m t _ Hm).
    unfold dayInMs. rewrite !Z.ltb_lt. lia.
  - intros now Hle. rewrite (checkAccess_stored m t _ Hm).
    unfold dayInMs. rewrite Z.ltb_lt. lia.
Qed.

Lemma grant_validity_is_downward_closed_witness :
  checkAccess (Items {["access_granted" := "1700000000000"]}) 1600000000000 = true.
Proof.
  assert (Hs : ({["access_granted" := "1700000000000"]} : gmap string string)
               !! "access_granted" = Some (Number_toString 1700000000000))
    by reflexivity.
  destruct (grant_validity_is_downward_closed _ 1700000000000 Hs) as [_ H].
  apply H. lia.
Defined.

End GateUrl.

(** ** The clock *)

Section PlayerClock.

Import VideoPlayer PlayerView.

Lemma Qfloor_unique (x : Q) (z : Z) :
  (inject_Z z <= x)%Q -> (x < inject_Z (z + 1))%Q -> Qfloor x = z.
Proof.
  intros H1 H2. apply floor_ge in H1. apply floor_lt in H2. lia.
Qed.

Lemma Qfloor_div60 (t : Q) : Qfloor (t / 60) = Qfloor t / 60.
Proof.
  pose proof (Qfloor_le t) as H1. pose proof (Qlt_floor t) as H2.
  pose proof (Z.div_mod (Qfloor t) 60 ltac:(lia)) as Hd.
  pose proof (Z.mod_pos_bound (Qfloor t) 60 ltac:(lia)) as Hr.
  set (q := Qfloor t / 60) in *. set (r := Qfloor t mod 60) in *.
  rewrite Hd in H1, H2.
  rewrite inject_Z_plus, inject_Z_mult in H1.
  rewrite !inject_Z_plus, inject_Z_mult in H2.
  assert (Hr1 : (0 <= inject_Z r)%Q)
    by (change 0%Q with (inject_Z 0); rewrite <- Zle_Qle; lia).
  assert (Hr2 : (inject_Z r + 1 <= 60)%Q).
  { change 1%Q with (inject_Z 1). rewrite <- inject_Z_plus.
    change 60%Q with (inject_Z 60). rewrite <- Zle_Qle. lia. }
  change (inject_Z 60) with 60%Q in *. change (inject_Z 1) with 1%Q in *.
  apply Qfloor_unique.
  - apply Qle_shift_div_l; [reflexivity|]. lra.
  - rewrite inject_Z_plus. change (inject_Z 1) with 1%Q.
    apply Qlt_shift_div_r; [reflexivity|]. lra.
Qed.

Lemma Qfloor_minus_int (t : Q) (k : Z) :
  Qfloor (t - inject_Z k) = Qfloor t - k.
Proof.
  pose proof (Qfloor_le t) as H1. pose proof (Qlt_floor t) as H2.
  apply Qfloor_unique.
  - unfold Z.sub. rewrite inject_Z_plus, inject_Z_opp. lra.
  - replace (Qfloor t - k + 1) with (Qfloor t + 1 - k) by lia.
    unfold Z.sub. rewrite inject_Z_plus, inject_Z_opp. lra.
Qed.

Lemma jsRem60_floor (t : Q) :
  (0 <= t)%Q -> Qfloor (jsRem t 60) = Qfloor t mod 60.
Proof.
  intros Ht. unfold jsRem, Qtrunc.
  assert (H0 : Qle_bool 0 (t / 60) = true).
  { apply Qle_bool_iff. apply Qle_shift_div_l; [reflexivity|]. lra. }
  rewrite H0, Qfloor_div60.
  assert (He : (t - 60 * inject_Z (Qfloor t / 60)
                == t - inject_Z (60 * (Qfloor t / 60)))%Q).
  { rewrite inject_Z_mult. change (inject_Z 60) with 60%Q. reflexivity. }
  rewrite (Qfloor_comp _ _ He), Qfloor_minus_int.
  pose proof (Z.div_mod (Qfloor t) 60 ltac:(lia)). lia.
Qed.

Lemma string_length_app (s1 s2 : string) :
  String.length (s1 ++ s2) = (String.length s1 + String.length s2)%nat.
Proof.
  induction s1 as [|c s1 IH]; [reflexivity|].
  change (S (String.length (s1 ++ s2)) = S (String.length s1 + String.length s2)).
  now f_equal.
Qed.

Lemma padStart2_below_100 (n : Z) :
  0 <= n < 100 -> String.length (padStart2 (Number_toString n)) = 2%nat.
Proof.
  intros Hn.
  assert (Hall : forallb
                   (fun k => Nat.eqb (String.length
                                (padStart2 (Number_toString (Z.of_nat k)))) 2)
                   (seq 0 100) = true) by (vm_compute; reflexivity).
  rewrite forallb_forall in Hall.
  specialize (Hall (Z.to_nat n)). rewrite Z2Nat.id in Hall by lia.
  apply Nat.eqb_eq, Hall. apply in_seq. lia.
Qed.

(** X9.  For a time that is not negative the clock shows the whole
    seconds only: the minutes field is [floor(time)] divided by 60, the
    seconds field its remainder, each printed on at least two digits; the
    seconds field has exactly two characters, and below 100 minutes the
    whole string has exactly five. *)
Theorem formatTime_whole_seconds (time : Q) :
  (0 <= time)%Q ->
  formatTime time
  = padStart2 (Number_toString (Qfloor time / 60)) ++ ":"
    ++ padStart2 (Number_toString (Qfloor time mod 60)) /\
  String.length (padStart2 (Number_toString (Qfloor time mod 60))) = 2%nat /\
  ((time < 6000)%Q -> String.length (formatTime time) = 5%nat).
Proof.
  intros Ht.
  assert (Hf : formatTime time
               = padStart2 (Number_toString (Qfloor time / 60)) ++ ":"
                 ++ padStart2 (Number_toString (Qfloor time mod 60))).
  { unfold formatTime. now rewrite Qfloor_div60, jsRem60_floor. }
  pose proof (Z.mod_pos_bound (Qfloor time) 60 ltac:(lia)) as Hr.
  assert (Hs : String.length (padStart2 (Number_toString (Qfloor time mod 60)))
               = 2%nat) by (apply padStart2_below_100; lia).
  split; [exact Hf|]. split; [exact Hs|].
  intros Hlt. rewrite Hf, !string_length_app, Hs.
  rewrite padStart2_below_100; [reflexivity|].
  apply (floor_ge 0) in Ht. change 6000%Q with (inject_Z 6000) in Hlt.
  apply floor_lt in Hlt.
  split; [apply Z.div_pos; lia | apply Z.div_lt_upper_bound; lia].
Qed.

Lemma formatTime_whole_seconds_witness :
  formatTime (251 # 2) = "02:05" /\ String.length (formatTime (251 # 2)) = 5%nat.
Proof.
  destruct (formatTime_whole_seconds (251 # 2)) as (H1 & _ & H3).
  - intros H. discriminate H.
  - split; [rewrite H1; reflexivity | apply H3; reflexivity].
Defined.

Example formatTime_samples :
  formatTime 0 = "00:00" /\ formatTime 59 = "00:59" /\
  formatTime 60 = "01:00" /\ formatTime 6000 = "100:00" /\
  formatTime (-1 # 2) = "-1:-1".
Proof. repeat split; reflexivity. Qed.

End PlayerClock.

(** ** What the player leaves in the storage *)

Section PlayerStorage.

Import VideoPlayer LecturesSection.

Variable toString : Q -> string.
Variable url : string.

Lemma playback_storage (ts : list Q) :
  forall (p : Player) (v : Video) (m : gmap string string),
  videoRef p = Some v -> localStorage p = Items m ->
  exists p' v',
    playback toString url ts p = Normal p' /\
    videoRef p' = Some v' /\
    localStorage p'
    = Items (match last (List.filter (fun t => Qfloor t mod 5 =? 0) ts) with
             | Some t => <[progressKey url := toString t]> m
             | None => m
             end).
Proof.
  induction ts as [|t ts IH]; intros p v m Hv Hm.
  - exists p, v. now repeat split.
  - cbn [playback]. rewrite (timeupdate_spec toString url p v m t Hv Hm).
    cbn [mbind completion_bind List.filter].
    destruct (Qfloor t mod 5 =? 0).
    + match goal with |- context [playback _ _ _ ?q] =>
        destruct (IH q _ _ eq_refl eq_refl) as (p' & v' & Hp & Hv' & Hm')
      end.
      exists p', v'. rewrite Hp, Hm', last_cons. repeat split; try assumption.
      destruct (last _); [now rewrite insert_insert_eq | reflexivity].
    + match goal with |- context [playback _ _ _ ?q] =>
        destruct (IH q _ _ eq_refl eq_refl) as (p' & v' & Hp & Hv' & Hm')
      end.
      exists p', v'. rewrite Hp, Hm'. now repeat split.
Qed.

(** X11.  After any run of [timeupdate] events on working storage, the
    progress entry of the video holds the position of the last event that
    fell on a second divisible by 5, and is untouched when there was none.
    If that position reads back from its printed form, the catalogue's
    [getLastWatchedTime] returns it and a player mounted afterwards on the
    same address starts the element there. *)
Theorem stored_progress_is_last_mark
    (p : Player) (v : Video) (m : gmap string string) (ts : list Q) :
  videoRef p = Some v -> localStorage p = Items m ->
  exists p',
    playback toString url ts p = Normal p' /\
    localStorage p'
    = Items (match last (List.filter (fun t => Qfloor t mod 5 =? 0) ts) with
             | Some t => <[progressKey url := toString t]> m
             | None => m
             end) /\
    forall t,
      last (List.filter (fun t => Qfloor t mod 5 =? 0) ts) = Some t ->
      parseFloat (toString t) = Val t ->
      getLastWatchedTime (localStorage p') url = Normal (Val t) /\
      loadSavedProgress url (initial (Some (mkVideo 0%Q None)) (localStorage p'))
      = Normal (initial (Some (mkVideo t None)) (localStorage p')).
Proof.
  intros Hv Hm.
  destruct (playback_storage ts p v m Hv Hm) as (p' & v' & Hp & _ & Hs).
  exists p'. split; [exact Hp|]. split; [exact Hs|].
  intros t Hl Hr. rewrite Hs, Hl.
  assert (Ht : truthy (toString t) = true).
  { destruct (toString t); [discriminate Hr | reflexivity]. }
  split.
  - unfold getLastWatchedTime.
    change ("video_progress_" ++ substring 0 20 (btoa url)) with (progressKey url).
    cbn [getItem mbind completion_bind]. rewrite lookup_insert_eq, Ht, Hr.
    reflexivity.
  - unfold loadSavedProgress, initial.
    cbn [videoRef localStorage getItem mbind completion_bind].
    rewrite lookup_insert_eq, Ht, Hr. reflexivity.
Qed.

(** X12.  The player writes under its own progress key only: after any
    run of [timeupdate] events on working storage no exception has been
    raised, every other key reads as before, and in particular the access
    grant is never touched. *)
Theorem playback_writes_only_its_key
    (p : Player) (v : Video) (m : gmap string string) (ts : list Q) :
  videoRef p = Some v -> localStorage p = Items m ->
  exists p' m',
    playback toString url ts p = Normal p' /\
    localStorage p' = Items m' /\
    (forall k, k <> progressKey url -> m' !! k = m !! k) /\
    m' !! "access_granted" = m !! "access_granted".
Proof.
  intros Hv Hm.
  destruct (playback_storage ts p v m Hv Hm) as (p' & v' & Hp & _ & Hs).
  eexists p', _. split; [exact Hp|]. split; [exact Hs|].
  assert (Hk : forall k, k <> progressKey url ->
            (match last (List.filter (fun t => Qfloor t mod 5 =? 0) ts) with
             | Some t => <[progressKey url := toString t]> m
             | None => m
             end) !! k = m !! k).
  { intros k Hne. destruct (last _); [|reflexivity].
    now rewrite lookup_insert_ne. }
  split; [exact Hk|]. apply Hk. discriminate.
Qed.

End PlayerStorage.

Lemma stored_progress_is_last_mark_witness :
  exists p',
    playback exactDecimal VideoPlayer.Scenario.url1
      [0%Q; 21 # 4; 7%Q; 43 # 4; 12%Q] VideoPlayer.Scenario.fresh = Normal p' /\
    VideoPlayer.localStorage p'
    = Items {[progressKey VideoPlayer.Scenario.url1 := "10.75"]} /\
    LecturesSection.getLastWatchedTime (VideoPlayer.localStorage p')
      VideoPlayer.Scenario.url1 = Normal (Val (43 # 4)%Q).
Proof.
  destruct (stored_progress_is_last_mark exactDecimal VideoPlayer.Scenario.url1
              VideoPlayer.Scenario.fresh (mkVideo 0%Q (Some 120%Q)) ∅
              [0%Q; 21 # 4; 7%Q; 43 # 4; 12%Q] eq_refl eq_refl)
    as (p' & Hp & Hs & Hr).
  exists p'. split; [exact Hp|]. split; [rewrite Hs; reflexivity|].
  apply (Hr (43 # 4)%Q); reflexivity.
Defined.

Lemma playback_writes_only_its_key_witness :
  exists p' m',
    playback exactDecimal VideoPlayer.Scenario.url1 [0%Q; 21 # 4]
      (VideoPlayer.initial (Some (mkVideo 0%Q (Some 120%Q)))
         (Items {["access_granted" := "1700000000000"]})) = Normal p' /\
    VideoPlayer.localStorage p' = Items m' /\
    m' !! "access_granted" = Some "1700000000000".
Proof.
  destruct (playback_writes_only_its_key exactDecimal VideoPlayer.Scenario.url1
              (VideoPlayer.initial (Some (mkVideo 0%Q (Some 120%Q)))
                 (Items {["access_granted" := "1700000000000"]}))
              (mkVideo 0%Q (Some 120%Q))
              {["access_granted" := "1700000000000"]}
              [0%Q; 21 # 4] eq_refl eq_refl)
    as (p' & m' & Hp & Hs & _ & Hg).
  exists p', m'. split; [exact Hp|]. split; [exact Hs|].
  rewrite Hg. reflexivity.
Defined.

(** ** Which addresses share a progress key *)

Section KeyCollisions.

Import VideoPlayer.

Lemma b64_inv n : (n < 64)%N -> b64inv (VideoPlayer.b64 n) = n /\ Ascii.eqb (VideoPlayer.b64 n) "=" = false.
Proof.
  intros Hn.
  assert (Hall : forallb (fun k => N.eqb (b64inv (b64 (N.of_nat k))) (N.of_nat k)
                                   && negb (Ascii.eqb (b64 (N.of_nat k)) "="))
                   (seq 0 64) = true) by (vm_compute; reflexivity).
  rewrite forallb_forall in Hall.
  specialize (Hall (N.to_nat n)). rewrite N2Nat.id in Hall.
  assert (Hin : In (N.to_nat n) (seq 0 64)) by (apply in_seq; lia).
  apply Hall in Hin. apply andb_true_iff in Hin as [H1 H2].
  apply N.eqb_eq in H1. apply negb_true_iff in H2. now split.
Qed.

Lemma sextets (n : N) : (n < 16777216 ->
  (n / 262144 mod 64) * 262144 + (n / 4096 mod 64) * 4096
  + (n / 64 mod 64) * 64 + n mod 64 = n)%N.
Proof.
  intros Hn.
  pose proof (N.div_mod n 64 ltac:(discriminate)) as H1.
  pose proof (N.mod_lt n 64 ltac:(discriminate)) as B1.
  pose proof (N.div_mod (n / 64) 64 ltac:(discriminate)) as H2.
  pose proof (N.mod_lt (n / 64) 64 ltac:(discriminate)) as B2.
  pose proof (N.div_mod (n / 64 / 64) 64 ltac:(discriminate)) as H3.
  pose proof (N.mod_lt (n / 64 / 64) 64 ltac:(discriminate)) as B3.
  rewrite (N.Div0.div_div n 64 64) in H2, H3, B3.
  rewrite (N.Div0.div_div n (64 * 64) 64) in H3.
  change (64 * 64)%N with 4096%N in *. change (4096 * 64)%N with 262144%N in *.
  assert (Hq : (n / 262144 < 64)%N) by (apply N.Div0.div_lt_upper_bound; lia).
  rewrite (N.mod_small (n / 262144) 64 Hq).
  lia.
Qed.

Lemma bytes3 (A B C : N) : (A < 256 -> B < 256 -> C < 256 ->
  let n := A * 65536 + B * 256 + C in
  n < 16777216 /\ n / 65536 = A /\ n / 256 mod 256 = B /\ n mod 256 = C)%N.
Proof.
  intros HA HB HC n. unfold n. split; [lia|]. split; [|split].
  - symmetry. apply N.div_unique with (r := (B * 256 + C)%N); lia.
  - assert (H : ((A * 65536 + B * 256 + C) / 256 = A * 256 + B)%N)
      by (symmetry; apply N.div_unique with (r := C); lia).
    rewrite H. symmetry. apply N.mod_unique with (q := A); lia.
  - symmetry. apply N.mod_unique with (q := (A * 256 + B)%N); lia.
Qed.

Lemma sextet_lt (n k : N) : (n / k mod 64 < 64)%N /\ (n mod 64 < 64)%N.
Proof. split; apply N.mod_lt; discriminate. Qed.

Lemma atob_chunk3 (a b c : ascii) (rest : string) :
  atob (btoa (String a (String b (String c rest))))
  = String a (String b (String c (atob (btoa rest)))).
Proof.
  cbn [btoa atob].
  set (n := (N_of_ascii a * 65536 + N_of_ascii b * 256 + N_of_ascii c)%N).
  destruct (sextet_lt n 262144) as [L1 L4]. destruct (sextet_lt n 4096) as [L2 _].
  destruct (sextet_lt n 64) as [L3 _].
  destruct (b64_inv _ L1) as [-> _]. destruct (b64_inv _ L2) as [-> _].
  destruct (b64_inv _ L3) as [-> ->]. destruct (b64_inv _ L4) as [-> ->].
  destruct (bytes3 _ _ _ (N_ascii_bounded a) (N_ascii_bounded b) (N_ascii_bounded c))
    as (Hn & H1 & H2 & H3).
  fold n in Hn, H1, H2, H3.
  rewrite (sextets n Hn), H1, H2, H3, !ascii_N_embedding. reflexivity.
Qed.

Lemma atob_chunk2 (a b : ascii) :
  atob (btoa (String a (String b ""))) = String a (String b "").
Proof.
  cbn [btoa atob].
  set (n := (N_of_ascii a * 65536 + N_of_ascii b * 256)%N).
  destruct (sextet_lt n 262144) as [L1 L4]. destruct (sextet_lt n 4096) as [L2 _].
  destruct (sextet_lt n 64) as [L3 _].
  destruct (b64_inv _ L1) as [-> _]. destruct (b64_inv _ L2) as [-> _].
  destruct (b64_inv _ L3) as [-> ->]. cbn [Ascii.eqb Bool.eqb].
  destruct (bytes3 _ _ 0 (N_ascii_bounded a) (N_ascii_bounded b) eq_refl)
    as (Hn & H1 & H2 & _).
  rewrite N.add_0_r in Hn, H1, H2. fold n in Hn, H1, H2.
  pose proof (sextets n Hn) as Hs.
  assert (H0 : (n mod 64 = 0)%N).
  { symmetry. apply N.mod_unique with (q := (N_of_ascii a * 1024 + N_of_ascii b * 4)%N);
      unfold n; lia. }
  rewrite H0, N.add_0_r in Hs.
  rewrite Hs, H1, H2, !ascii_N_embedding. reflexivity.
Qed.

Lemma atob_chunk1 (a : ascii) : atob (btoa (String a "")) = String a "".
Proof.
  cbn [btoa atob].
  set (n := (N_of_ascii a * 65536)%N).
  destruct (sextet_lt n 262144) as [L1 L4]. destruct (sextet_lt n 4096) as [L2 _].
  destruct (b64_inv _ L1) as [-> _]. destruct (b64_inv _ L2) as [-> _].
  cbn [Ascii.eqb Bool.eqb].
  pose proof (N_ascii_bounded a) as Ha.
  assert (Hn : (n < 16777216)%N) by (unfold n; lia).
  assert (H1 : (n / 65536 = N_of_ascii a)%N)
    by (symmetry; apply N.div_unique with (r := 0%N); unfold n; lia).
  pose proof (sextets n Hn) as Hs.
  assert (H0 : (n mod 64 = 0)%N).
  { symmetry. apply N.mod_unique with (q := (N_of_ascii a * 1024)%N); unfold n; lia. }
  assert (H6 : (n / 64 mod 64 = 0)%N).
  { assert (Hd : (n / 64 = N_of_ascii a * 1024)%N)
      by (symmetry; apply N.div_unique with (r := 0%N); unfold n; lia).
    rewrite Hd. symmetry. apply N.mod_unique with (q := (N_of_ascii a * 16)%N); lia. }
  assert (Hs' : (n / 262144 mod 64 * 262144 + n / 4096 mod 64 * 4096 = n)%N)
    by (rewrite H0, H6 in Hs; rewrite <- Hs at 3; lia).
  rewrite Hs', H1, ascii_N_embedding. reflexivity.
Qed.

Lemma atob_btoa (s : string) : atob (btoa s) = s.
Proof.
  enough (H : atob (btoa s) = s /\
              (forall a, atob (btoa (String a s)) = String a s) /\
              (forall a b, atob (btoa (String a (String b s))) = String a (String b s)))
    by apply H.
  induction s as [|c s (IH1 & IH2 & IH3)].
  - split; [reflexivity|]. split; [apply atob_chunk1 | apply atob_chunk2].
  - split; [apply IH2|]. split; [intros a; apply IH3|].
    intros a b. now rewrite atob_chunk3, IH1.
Qed.

Lemma append_cancel (pre s1 s2 : string) : pre ++ s1 = pre ++ s2 -> s1 = s2.
Proof.
  induction pre as [|c pre IH]; intros H; [exact H|].
  apply IH. now injection H.
Qed.

Lemma substring_length_le (n : nat) (s : string) :
  (String.length (substring 0 n s) <= n)%nat.
Proof.
  revert s. induction n as [|n IH]; intros [|c s]; cbn; try lia.
  specialize (IH s). lia.
Qed.

(** X13.  Two addresses get the same progress key exactly when they agree
    on their first fifteen characters: base64 is injective, and the
    twenty-character cut keeps the encoding of those characters and nothing
    more.  The key never has more than twenty characters. *)
Theorem videoId_equal_iff_same_prefix (url1 url2 : string) :
  (videoId url1 = videoId url2 <-> substring 0 15 url1 = substring 0 15 url2) /\
  (progressKey url1 = progressKey url2 <->
   substring 0 15 url1 = substring 0 15 url2) /\
  (String.length (videoId url1) <= 20)%nat.
Proof.
  assert (H : videoId url1 = videoId url2 <->
              substring 0 15 url1 = substring 0 15 url2).
  { split; [|apply videoId_same_prefix].
    rewrite !videoId_first15. intros E.
    apply (f_equal atob) in E. now rewrite !atob_btoa in E. }
  split; [exact H|]. split.
  - rewrite <- H. unfold progressKey. split; [|now intros ->].
    intros E. now apply append_cancel in E.
  - apply substring_length_le.
Qed.

Lemma videoId_equal_iff_same_prefix_witness :
  videoId "https://a.example/one.m3u8" <> videoId "https://b.example/one.m3u8" /\
  (String.length (videoId "https://a.example/one.m3u8") <= 20)%nat.
Proof.
  destruct (videoId_equal_iff_same_prefix "https://a.example/one.m3u8"
              "https://b.example/one.m3u8") as (H & _ & Hl).
  split; [|exact Hl].
  intros E. apply H in E. discriminate E.
Defined.

End KeyCollisions.

(** ** The quality menu *)

Section QualityMenu.

Import PlayerView.

Let compareHeight (a b : QualityLevel) : Z := height b - height a.

Lemma insertSorted_perm (x : QualityLevel) (l : list QualityLevel) :
  insertSorted compareHeight x l ≡ₚ x :: l.
Proof.
  induction l as [|y l IH]; [reflexivity|].
  cbn [insertSorted]. destruct (compareHeight y x <=? 0); [|reflexivity].
  rewrite IH. apply Permutation_swap.
Qed.

Lemma Array_sort_perm_acc (l acc : list QualityLevel) :
  fold_left (fun acc x => insertSorted compareHeight x acc) l acc ≡ₚ acc ++ l.
Proof.
  revert acc. induction l as [|x l IH]; intros acc; cbn [fold_left].
  - now rewrite app_nil_r.
  - rewrite IH, insertSorted_perm.
    rewrite (Permutation_middle acc l x). reflexivity.
Qed.

Lemma insertSorted_sorted (x : QualityLevel) (l : list QualityLevel) :
  StronglySorted menuOrder l ->
  Forall (fun a => (index a < index x)%nat) l ->
  StronglySorted menuOrder (insertSorted compareHeight x l).
Proof.
  induction l as [|y l IH]; intros Hs Hi.
  - repeat constructor.
  - apply StronglySorted_inv in Hs as [Hs Hy].
    apply Forall_cons in Hi as [Hyx Hi].
    cbn [insertSorted]. unfold compareHeight at 1.
    destruct (Z.leb_spec (height x - height y) 0) as [Hle | Hgt].
    + constructor; [now apply IH|].
      rewrite insertSorted_perm. constructor; [|exact Hy].
      unfold menuOrder. lia.
    + constructor; [now constructor|].
      constructor; [unfold menuOrder; lia|].
      eapply Forall_impl; [exact Hy|].
      unfold menuOrder. intros z Hz. lia.
Qed.

Lemma Array_sort_sorted_from (hs : list Z) :
  forall (k : nat) (acc : list QualityLevel),
  StronglySorted menuOrder acc ->
  Forall (fun a => (index a < k)%nat) acc ->
  StronglySorted menuOrder
    (fold_left (fun acc x => insertSorted compareHeight x acc)
       (imap (fun i h => mkLevel h (k + i)) hs) acc).
Proof.
  induction hs as [|h hs IH]; intros k acc Hs Hi; [exact Hs|].
  rewrite imap_cons. cbn [fold_left].
  rewrite (imap_ext _ (fun i h => mkLevel h (S k + i)));
    [|intros i y _; cbn; f_equal; lia].
  apply IH.
  - apply insertSorted_sorted; [exact Hs|].
    eapply Forall_impl; [exact Hi|]. cbn. intros a Ha. lia.
  - rewrite insertSorted_perm. constructor; [cbn; lia|].
    eapply Forall_impl; [exact Hi|]. cbn. intros a Ha. lia.
Qed.

(** X14.  The quality menu lists exactly the levels the engine reported,
    none lost and none added, the higher resolution first and levels of
    equal height in the engine's order; and every entry still carries the
    position of its own level in the engine's list, so that choosing it
    selects the level with the height it shows. *)
Theorem quality_menu_sorted_and_indexed (hlsLevels : list Z) :
  qualityMenu (levelsOf hlsLevels) ≡ₚ levelsOf hlsLevels /\
  StronglySorted menuOrder (qualityMenu (levelsOf hlsLevels)) /\
  length (qualityMenu (levelsOf hlsLevels)) = length hlsLevels /\
  (forall l, l ∈ qualityMenu (levelsOf hlsLevels) ->
             hlsLevels !! index l = Some (height l)).
Proof.
  assert (Hp : qualityMenu (levelsOf hlsLevels) ≡ₚ levelsOf hlsLevels).
  { unfold qualityMenu, Array_sort.
    exact (Array_sort_perm_acc (levelsOf hlsLevels) []). }
  split; [exact Hp|]. split; [|split].
  - unfold qualityMenu, Array_sort, levelsOf.
    apply (Array_sort_sorted_from hlsLevels 0 []); constructor.
  - rewrite Hp. unfold levelsOf. apply length_imap.
  - intros l Hl. rewrite Hp in Hl. unfold levelsOf in Hl.
    apply elem_of_lookup_imap in Hl as (i & y & -> & Hy). exact Hy.
Qed.

Lemma quality_menu_sorted_and_indexed_witness :
  qualityMenu (levelsOf [360; 1080; 720; 720])
  = [mkLevel 1080 1; mkLevel 720 2; mkLevel 720 3; mkLevel 360 0] /\
  [360; 1080; 720; 720] !! index (mkLevel 720 3) = Some (height (mkLevel 720 3)).
Proof.
  split; [reflexivity|].
  destruct (quality_menu_sorted_and_indexed [360; 1080; 720; 720])
    as (_ & _ & _ & H).
  apply H. vm_compute. do 2 right. left.
Defined.

End QualityMenu.

(** ** Playing with the storage refused *)

Section BlockedPlayback.

Import VideoPlayer.

Variable toString : Q -> string.
Variable url : string.

Lemma timeupdate_blocked (p : Player) (v : Video) (t : Q) :
  videoRef p = Some v -> localStorage p = Unavailable ->
  timeupdate toString url t p
  = if Qfloor t mod 5 =? 0 then Throw SecurityError
    else Normal (mkPlayer (Some (mkVideo t (v_duration v))) t (duration p)
                          Unavailable (written p)).
Proof.
  intros Hv Hl. destruct p as [vr ct du ls wr]. cbn in Hv, Hl. subst vr ls.
  unfold timeupdate, handleTimeUpdate, onFiveSecondMark.
  cbn [setVideo videoRef v_currentTime].
  rewrite rem5_mod5. destruct (Qfloor t mod 5 =? 0); reflexivity.
Qed.

(** X15.  [handleTimeUpdate] writes outside any [try]: with the storage
    refusing access, a run of [timeupdate] events ends in a
    [SecurityError] as soon as one event falls on a second divisible by 5
    (the first second of the video included), and goes through, writing
    nothing, only if none does. *)
Theorem playback_on_blocked_storage
    (p : Player) (v : Video) (ts : list Q) :
  videoRef p = Some v -> localStorage p = Unavailable ->
  (Exists (fun t => Qfloor t mod 5 = 0) ts ->
   playback toString url ts p = Throw SecurityError) /\
  (Forall (fun t => Qfloor t mod 5 <> 0) ts ->
   exists p', playback toString url ts p = Normal p' /\
              written p' = written p /\ localStorage p' = Unavailable).
Proof.
  revert p v. induction ts as [|t ts IH]; intros p v Hv Hl.
  - split; [intros H; inversion H|]. intros _. exists p. now repeat split.
  - cbn [playback]. rewrite (timeupdate_blocked p v t Hv Hl).
    destruct (Z.eqb_spec (Qfloor t mod 5) 0) as [H5 | H5].
    + split; [reflexivity|]. intros H. apply Forall_cons in H as [H _].
      contradiction.
    + cbn [mbind completion_bind].
      match goal with |- context [playback _ _ _ ?q] =>
        destruct (IH q (mkVideo t (v_duration v)) eq_refl eq_refl) as [IH1 IH2]
      end.
      split.
      * intros H. apply Exists_cons in H as [H | H]; [contradiction|].
        now apply IH1.
      * intros H. apply Forall_cons in H as [_ H]. now apply IH2.
Qed.

End BlockedPlayback.

Lemma playback_on_blocked_storage_witness :
  playback exactDecimal VideoPlayer.Scenario.url1 [(1 # 4)%Q]
    (VideoPlayer.initial (Some (mkVideo 0%Q None)) Unavailable)
  = Throw SecurityError /\
  exists p',
    playback exactDecimal VideoPlayer.Scenario.url1 [(5 # 4)%Q; (9 # 2)%Q]
      (VideoPlayer.initial (Some (mkVideo 0%Q None)) Unavailable) = Normal p' /\
    VideoPlayer.written p' = [].
Proof.
  split.
  - apply (playback_on_blocked_storage exactDecimal VideoPlayer.Scenario.url1
             (VideoPlayer.initial (Some (mkVideo 0%Q None)) Unavailable)
             (mkVideo 0%Q None) [(1 # 4)%Q] eq_refl eq_refl).
    left. reflexivity.
  - destruct (playback_on_blocked_storage exactDecimal VideoPlayer.Scenario.url1
                (VideoPlayer.initial (Some (mkVideo 0%Q None)) Unavailable)
                (mkVideo 0%Q None) [(5 # 4)%Q; (9 # 2)%Q] eq_refl eq_refl)
      as [_ H].
    destruct H as (p' & Hp & Hw & _).
    + repeat constructor; discriminate.
    + exists p'. split; [exact Hp | exact Hw].
Defined.
